(** * GoBarber web client: form submission handlers and toast timers

    A shallow embedding of the submit handlers of the three screens
    ([src/pages/SignIn], [src/pages/SignUp], [src/pages/Profile]) and of the
    [Toast] component's dismissal timer, with the properties the
    specification states about them.

    Conventions of the embedding.
    - A form field holds a JavaScript value: a string, [undefined] (the key
      is absent) or [null].  A string is a sequence of code units; its
      [length] is [String.length].
    - A JavaScript object used as a record is a finite map from keys to
      values ([gmap string value]); reading an absent key gives [undefined].
    - A handler is a computation that emits the effects it performs, in
      order, and either returns or throws.  The effects are the calls the
      source makes on its collaborators: [setErrors] on the form, the
      schema's [validate], the HTTP client, [addToast], [history.push].
    - The validation library is embedded as the declarative schema the source
      builds plus an interpreter for the rules the source uses. *)

From Stdlib Require Import String Ascii List Bool Arith Lia.
From stdpp Require Import base option list strings gmap.

#[local] Open Scope string_scope.
#[local] Open Scope list_scope.

(* ===================================================================== *)
(** ** JavaScript values and objects *)
(* ===================================================================== *)

Module JS.

Inductive value : Type :=
| undefined
| null
| str (s : string).

(** [a === b] on the values of the embedding. *)
Definition value_eqb (a b : value) : bool :=
  match a, b with
  | undefined, undefined => true
  | null, null => true
  | str s, str t => String.eqb s t
  | _, _ => false
  end.

(** Truthiness: [undefined], [null] and the empty string are falsy. *)
Definition truthy (v : value) : bool :=
  match v with
  | str s => negb (String.eqb s "")
  | _ => false
  end.

(** [v == null]: the value is [undefined] or [null]. *)
Definition isAbsent (v : value) : bool :=
  match v with
  | str _ => false
  | _ => true
  end.

Abbreviation object := (gmap string value).

(** Property read [o.k]; an absent key reads as [undefined]. *)
Definition get (o : object) (k : string) : value :=
  default undefined (o !! k).

(** What a [throw] carries.  [ValidationError] is the validation library's
    error with its [inner] list of (path, message); [RequestError] stands
    for the rejection of an HTTP request. *)
Inductive exn (M : Type) : Type :=
| TypeError
| ValidationError (inner : list (string * M))
| RequestError.
Arguments TypeError {M}.
Arguments ValidationError {M} inner.
Arguments RequestError {M}.

(** The result of running code that may throw. *)
Inductive completion (M A : Type) : Type :=
| Returned (a : A)
| Thrown (e : exn M).
Arguments Returned {M A} a.
Arguments Thrown {M A} e.

(** Sequencing: an exception skips the rest. *)
Definition and_then {M A B} (c : completion M A) (k : A -> completion M B)
  : completion M B :=
  match c with
  | Returned a => k a
  | Thrown e => Thrown e
  end.

End JS.
Import JS.

Arguments get : simpl never.

(* ===================================================================== *)
(** ** The validation library *)
(* ===================================================================== *)

Module Yup.

(** The library is a dependency of the repository, not part of it.  What is
    embedded is the part the three schemas use: string schemas with
    [required], [email], [min], [test], [oneOf] and [when], collected in an
    object shape and validated with [abortEarly: false]. *)

(** An error message: the text the schema gives for a rule, or the
    library's default message for a value that is not of the schema's
    type. *)
Inductive message : Type :=
| Msg (text : string)
| NotType.

(** A member of a [oneOf] list: a literal or a reference to a sibling. *)
Inductive operand : Type :=
| ref (key : string)
| lit (v : value).

(** A string schema, as a chain of method calls on [Yup.string()].
    [s |> required m] is [s.required(m)]. *)
Inductive schema : Type :=
| string_
| email (msg : string) (s : schema)
| required (msg : string) (s : schema)
| min (n : nat) (msg : string) (s : schema)
| test (name msg : string) (f : value -> bool) (s : schema)
| oneOf (enums : list operand) (msg : string) (s : schema)
| when (key : string) (is_ : value -> completion message bool)
       (then_ otherwise : schema) (s : schema).

(** An object schema: [Yup.object().shape({...})], fields in source order. *)
Definition shape := list (string * schema).

(** A rule of a resolved schema. *)
Inductive rule : Type :=
| Remail (msg : string)
| Rrequired (msg : string)
| Rmin (n : nat) (msg : string)
| Rtest (msg : string) (f : value -> bool)
| RoneOf (enums : list operand) (msg : string).

Definition is_whitelist (r : rule) : bool :=
  match r with RoneOf _ _ => true | _ => false end.

Section Interpreter.

(** The library's e-mail pattern, a regular expression over the whole
    string; its exact language is the library's and is left open. *)
Variable rEmail : string -> bool.

(** Resolution of a schema against the parent object: the conditions
    ([when]) are decided by calling [is] on the referenced sibling and
    the chosen branch is concatenated to the base.  A callback that
    throws aborts the resolution. *)
Fixpoint resolve (parent : object) (s : schema) : completion message (list rule) :=
  match s with
  | string_ => Returned []
  | email m s' => and_then (resolve parent s') (fun rs => Returned (rs ++ [Remail m]))
  | required m s' => and_then (resolve parent s') (fun rs => Returned (rs ++ [Rrequired m]))
  | min n m s' => and_then (resolve parent s') (fun rs => Returned (rs ++ [Rmin n m]))
  | test _ m f s' => and_then (resolve parent s') (fun rs => Returned (rs ++ [Rtest m f]))
  | oneOf enums m s' => and_then (resolve parent s') (fun rs => Returned (rs ++ [RoneOf enums m]))
  | when key is_ th ot s' =>
      and_then (resolve parent s') (fun rs =>
      and_then (is_ (get parent key)) (fun b =>
      and_then (resolve parent (if b then th else ot)) (fun rs' =>
      Returned (rs ++ rs'))))
  end.

Definition operand_value (parent : object) (o : operand) : value :=
  match o with
  | ref key => get parent key
  | lit v => v
  end.

(** Whether a rule accepts a value.  Every rule but [required] accepts an
    absent value; [email] also accepts the empty string. *)
Definition passes (parent : object) (r : rule) (v : value) : bool :=
  match r with
  | Rrequired _ =>
      match v with
      | str s => negb (Nat.eqb (String.length s) 0)
      | _ => false
      end
  | Remail _ =>
      match v with
      | str s => String.eqb s "" || rEmail s
      | _ => true
      end
  | Rmin n _ =>
      match v with
      | str s => Nat.leb n (String.length s)
      | _ => true
      end
  | Rtest _ f => f v
  | RoneOf enums _ =>
      match v with
      | undefined => true
      | _ => existsb (fun o => value_eqb (operand_value parent o) v) enums
      end
  end.

Definition rule_message (r : rule) : message :=
  match r with
  | Remail m | Rrequired m | Rmin _ m | Rtest m _ | RoneOf _ m => Msg m
  end.

Definition failures (parent : object) (rs : list rule) (v : value) : list message :=
  map rule_message (List.filter (fun r => negb (passes parent r v)) rs).

(** Validation of one value against resolved rules, all errors collected
    ([abortEarly: false]).  The type check and the [oneOf] lists run
    first; the other rules run only when those found nothing.  [null] is
    not a string and the schemas here are not nullable. *)
Definition check (parent : object) (rs : list rule) (v : value) : list message :=
  let initial :=
    (match v with null => [NotType] | _ => [] end)
    ++ failures parent (List.filter is_whitelist rs) v in
  match initial with
  | [] => failures parent (List.filter (fun r => negb (is_whitelist r)) rs) v
  | _ => initial
  end.

(** Resolution of every field of the object, in order; the first callback
    that throws aborts it. *)
Fixpoint resolve_fields (parent : object) (sh : shape)
  : completion message (list (string * list rule)) :=
  match sh with
  | [] => Returned []
  | (path, s) :: rest =>
      and_then (resolve parent s) (fun rs =>
      and_then (resolve_fields parent rest) (fun fs =>
      Returned ((path, rs) :: fs)))
  end.

Definition field_errors (parent : object) (f : string * list rule)
  : list (string * message) :=
  map (fun m => (fst f, m)) (check parent (snd f) (get parent (fst f))).

(** Every failure the schema finds in the object, field by field. *)
Definition report (sh : shape) (data : object)
  : completion message (list (string * message)) :=
  and_then (resolve_fields data sh) (fun fs =>
  Returned (flat_map (field_errors data) fs)).

(** [schema.validate(data, {abortEarly: false})]: returns when every field
    is accepted, throws a [ValidationError] carrying every failure
    otherwise, and lets an exception of a callback through. *)
Definition validate (sh : shape) (data : object) : completion message unit :=
  and_then (report sh data) (fun inner =>
  match inner with
  | [] => Returned tt
  | _ => Thrown (ValidationError inner)
  end).

(** The messages the schema reports on one path. *)
Definition errors_at (sh : shape) (data : object) (path : string)
  : completion message (list message) :=
  and_then (report sh data) (fun inner =>
  Returned (map snd (List.filter (fun e => String.eqb (fst e) path) inner))).

End Interpreter.

End Yup.
Import Yup.

Notation "s |> f" := (f s) (at level 45, left associativity, only parsing).

(* ===================================================================== *)
(** ** Effects of a handler *)
(* ===================================================================== *)

Module Effects.

(** The kinds of toast ([hooks/toast]); the component's [icons] table has
    exactly these three. *)
Inductive toast_type : Type := info | success | error.

(** The argument of [addToast]: a message without its identifier. *)
Record toast_data : Type := {
  type : toast_type;
  title : string;
  description : option string;
}.

Inductive method : Type := POST | PUT | PATCH.

(** A request body: a JSON object, or a [FormData] with its entries. *)
Inductive payload : Type :=
| Json (o : object)
| Multipart (entries : list (string * option string)).

Record request : Type := {
  verb : method;
  url : string;
  body : payload;
}.

(** What a handler does to the world, one constructor per collaborator. *)
Inductive action : Type :=
| SetErrors (errors : gmap string message)   (* formRef.current.setErrors *)
| Validate (data : object)                   (* schema.validate *)
| Http (r : request)                         (* api.post / put / patch *)
| AddToast (t : toast_data)                  (* addToast *)
| HistoryPush (path : string)                (* history.push *)
| UpdateUser (user : object).                (* updateUser *)

(** A computation: the actions performed, in order, and how it ended. *)
Record Eff (A : Type) : Type := mkEff {
  trace : list action;
  result : completion message A;
}.
Arguments mkEff {A} trace result.
Arguments trace {A} e.
Arguments result {A} e.

#[export] Instance Eff_ret : MRet Eff := fun A a => mkEff [] (Returned a).

#[export] Instance Eff_bind : MBind Eff := fun A B k c =>
  match result c with
  | Returned a => mkEff (trace c ++ trace (k a)) (result (k a))
  | Thrown e => mkEff (trace c) (Thrown e)
  end.

Definition emit (a : action) : Eff unit := mkEff [a] (Returned tt).

Definition throw {A} (e : exn message) : Eff A := mkEff [] (Thrown e).

Definition lift {A} (c : completion message A) : Eff A := mkEff [] c.

(** [try { body } catch (error) { handler error }] *)
Definition try_catch {A} (body : Eff A) (handler : exn message -> Eff A) : Eff A :=
  match result body with
  | Returned a => body
  | Thrown e => mkEff (trace body ++ trace (handler e)) (result (handler e))
  end.

(** A promise chain that is started and neither awaited nor given a
    rejection handler: its actions happen, the caller goes on, and a
    rejection reaches nobody. *)
Definition detached (c : Eff unit) : Eff unit := mkEff (trace c) (Returned tt).

(** *** Reading a trace *)

Definition is_request (a : action) : bool :=
  match a with Http _ => true | _ => false end.

Definition is_validate (a : action) : bool :=
  match a with Validate _ => true | _ => false end.

Definition is_setErrors (a : action) : bool :=
  match a with SetErrors _ => true | _ => false end.

Definition is_toast (a : action) : bool :=
  match a with AddToast _ => true | _ => false end.

Definition is_error_toast (a : action) : bool :=
  match a with
  | AddToast t => match type t with error => true | _ => false end
  | _ => false
  end.

Definition count (p : action -> bool) (tr : list action) : nat :=
  length (List.filter p tr).

Definition requests (tr : list action) : nat := count is_request tr.
Definition error_toasts (tr : list action) : nat := count is_error_toast tr.
Definition toasts (tr : list action) : nat := count is_toast tr.
Definition field_mappings (tr : list action) : nat := count is_setErrors tr.

(** The form's errors after the trace: [setErrors] replaces the whole
    error object, so the last call decides; a form starts without errors. *)
Definition form_errors (tr : list action) : gmap string message :=
  fold_left (fun errs a => match a with SetErrors e => e | _ => errs end) tr ∅.

End Effects.
Import Effects.

(** Modelled from the spec: [utils/getValidationErrors] is not among the
    source files.  The specification says that validation errors are mapped
    back onto the individual form fields by field name: each inner error's
    message is stored under its path (a later error on the same path
    replaces an earlier one, as an object assignment does).  On an error that
    is not a validation error the specification is silent and the map is
    empty here; no handler below reaches that case. *)
Definition getValidationErrors (err : exn message) : gmap string message :=
  match err with
  | ValidationError inner =>
      fold_left (fun errors e => <[fst e := snd e]> errors) inner ∅
  | _ => ∅
  end.

(** [error instanceof Yup.ValidationError] *)
Definition instanceof_ValidationError (err : exn message) : bool :=
  match err with ValidationError _ => true | _ => false end.

(* ===================================================================== *)
(** ** The collaborators the three screens share *)
(* ===================================================================== *)

Section Collaborators.

(** The e-mail pattern of the validation library. *)
Variable rEmail : string -> bool.

(** The remote API: the response data of a request, or [None] when the
    request fails. *)
Variable server : request -> option object.

(** Whether [formRef.current] holds the form (it is [null] until the form
    is mounted). *)
Variable formRef_current : bool.

(** [formRef.current?.setErrors(errors)] *)
Definition formRef_setErrors (errors : gmap string message) : Eff unit :=
  if formRef_current then emit (SetErrors errors) else mret tt.

(** [await schema.validate(data, { abortEarly: false })] *)
Definition schema_validate (sh : shape) (data : object) : Eff unit :=
  emit (Validate data) ;; lift (validate rEmail sh data).

(** [await api.<verb>(url, body)]: the request goes out; a failed request
    rejects, which [await] turns into a throw. *)
Definition api (v : method) (u : string) (b : payload) : Eff object :=
  let r := {| verb := v; url := u; body := b |} in
  emit (Http r) ;;
  match server r with
  | Some data => mret data
  | None => throw RequestError
  end.

Definition addToast (t : toast_data) : Eff unit := emit (AddToast t).
Definition history_push (path : string) : Eff unit := emit (HistoryPush path).
Definition updateUser (user : object) : Eff unit := emit (UpdateUser user).

End Collaborators.

(* ===================================================================== *)
(** ** [src/pages/SignIn/index.tsx] *)
(* ===================================================================== *)

Module SignIn.

Definition schema : shape :=
  [ ("email", string_ |> email "Digite um email válido"
                      |> required "Email Obrigatório");
    ("password", string_ |> required "Senha obrigatória") ].

Section Page.
Variable rEmail : string -> bool.
Variable formRef_current : bool.

(** The [try] block. *)
Definition submission (data : object) : Eff unit :=
  formRef_setErrors formRef_current {[ "name" := Msg "Nome obrigatório" ]} ;;
  schema_validate rEmail schema data.

(** The [catch] block: every caught error goes to the field mapping. *)
Definition recover (error : exn message) : Eff unit :=
  formRef_setErrors formRef_current (getValidationErrors error).

Definition handleSubmit (data : object) : Eff unit :=
  try_catch (submission data) recover.

End Page.

End SignIn.

(* ===================================================================== *)
(** ** [src/pages/SignUp/index.tsx] *)
(* ===================================================================== *)

Module SignUp.

Definition schema : shape :=
  [ ("name", string_ |> required "Nome Obrigatório");
    ("email", string_ |> email "Digite um email válido"
                      |> required "Email Obrigatório");
    ("password", string_ |> min 6 "No mínimo 6 dígitos") ].

Definition success_toast : toast_data :=
  {| type := success;
     title := "Cadastro realizado";
     description := Some "Você já pode fazer seu logon no goBarber" |}.

Definition failure_toast : toast_data :=
  {| type := error;
     title := "Erro ao cadastrar perfil";
     description :=
       Some "Ocorreu um erro ao tentar cadastrar seu perfil, tente novamente" |}.

Section Page.
Variable rEmail : string -> bool.
Variable server : request -> option object.
Variable formRef_current : bool.

(** The [try] block. *)
Definition submission (data : object) : Eff unit :=
  schema_validate rEmail schema data ;;
  api server POST "/users" (Json data) ;;
  addToast success_toast ;;
  history_push "/dashboard".

(** The [catch] block. *)
Definition recover (error : exn message) : Eff unit :=
  if instanceof_ValidationError error
  then formRef_setErrors formRef_current (getValidationErrors error)
  else addToast failure_toast.

Definition handleSubmit (data : object) : Eff unit :=
  try_catch (submission data) recover.

End Page.

End SignUp.

(* ===================================================================== *)
(** ** [src/pages/Profile/index.tsx] *)
(* ===================================================================== *)

Module Profile.

(** [val.length]: reading a property of [undefined] or [null] throws. *)
Definition length_of (val : value) : completion message nat :=
  match val with
  | str s => Returned (String.length s)
  | _ => Thrown TypeError
  end.

(** [val => !!val.length] *)
Definition new_password_given (val : value) : completion message bool :=
  and_then (length_of val) (fun n => Returned (negb (Nat.eqb n 0))).

(** [val => (val ? val.length >= 6 : true)]; the length is read only of a
    truthy value, which is a string. *)
Definition len (val : value) : bool :=
  if truthy val
  then match val with str s => Nat.leb 6 (String.length s) | _ => true end
  else true.

Definition schema : shape :=
  [ ("name", string_ |> required "Nome Obrigatório");
    ("email", string_ |> email "Digite um email válido"
                      |> required "Email Obrigatório");
    ("old_password",
      string_ |> when "password" new_password_given
                   (string_ |> required "Obrigatório ao informar a nova senha")
                   string_);
    ("password", string_ |> test "len" "Senha maior que 6 caracteres" len);
    ("password_confirmation",
      string_ |> oneOf [ref "password"; lit undefined] "Confirme a nova senha") ].

(** The body of the update request: [name] and [email], and the three
    password fields spread in when [old_password] is truthy. *)
Definition formData (data : object) : object :=
  let name := get data "name" in
  let email := get data "email" in
  let old_password := get data "old_password" in
  let password := get data "password" in
  let password_confirmation := get data "password_confirmation" in
  (if truthy old_password
   then {[ "old_password" := old_password;
           "password" := password;
           "password_confirmation" := password_confirmation ]}
   else ∅)
  ∪ {[ "name" := name; "email" := email ]}.

Definition success_toast : toast_data :=
  {| type := success;
     title := "Cadastro realizado";
     description := Some "Você já pode fazer seu logon no goBarber" |}.

Definition failure_toast : toast_data :=
  {| type := error;
     title := "Erro ao cadastrar perfil";
     description :=
       Some "Ocorreu um erro ao tentar cadastrar seu perfil, tente novamente" |}.

Definition avatar_toast : toast_data :=
  {| type := success; title := "Avatar atualizado"; description := None |}.

Section Page.
Variable rEmail : string -> bool.
Variable server : request -> option object.
Variable formRef_current : bool.

(** [e.target.files] is a list of files or [null]; a file is named by a
    string and [files[0]] of an empty list is [undefined].  The request is
    started with [.then] for the success case only. *)
Definition handleAvatarChange (files : option (list string)) : Eff unit :=
  match files with
  | Some fs =>
      let data := [("avatar", head fs)] in
      detached (
        response ← api server PATCH "/users/avatar" (Multipart data);
        updateUser response ;;
        addToast avatar_toast)
  | None => mret tt
  end.

(** The [try] block. *)
Definition submission (data : object) : Eff unit :=
  schema_validate rEmail schema data ;;
  api server PUT "/profile" (Json (formData data)) ;;
  addToast success_toast ;;
  history_push "/dashboard".

(** The [catch] block. *)
Definition recover (error : exn message) : Eff unit :=
  if instanceof_ValidationError error
  then formRef_setErrors formRef_current (getValidationErrors error)
  else addToast failure_toast.

Definition handleSubmit (data : object) : Eff unit :=
  try_catch (submission data) recover.

End Page.

End Profile.

(* ===================================================================== *)
(** ** The three screens side by side *)
(* ===================================================================== *)

Inductive screen : Type := SignInScreen | SignUpScreen | ProfileScreen.

Definition schema_of (scr : screen) : shape :=
  match scr with
  | SignInScreen => SignIn.schema
  | SignUpScreen => SignUp.schema
  | ProfileScreen => Profile.schema
  end.

Section Screens.
Variable rEmail : string -> bool.
Variable server : request -> option object.
Variable formRef_current : bool.

(** The [try] block of a screen's submit handler. *)
Definition try_block (scr : screen) (data : object) : Eff unit :=
  match scr with
  | SignInScreen => SignIn.submission rEmail formRef_current data
  | SignUpScreen => SignUp.submission rEmail server data
  | ProfileScreen => Profile.submission rEmail server data
  end.

(** A screen's submit handler. *)
Definition submit (scr : screen) (data : object) : Eff unit :=
  match scr with
  | SignInScreen => SignIn.handleSubmit rEmail formRef_current data
  | SignUpScreen => SignUp.handleSubmit rEmail server formRef_current data
  | ProfileScreen => Profile.handleSubmit rEmail server formRef_current data
  end.

(** The request a screen sends for accepted data, if it sends one. *)
Definition request_of (scr : screen) (data : object) : option request :=
  match scr with
  | SignInScreen => None
  | SignUpScreen => Some {| verb := POST; url := "/users"; body := Json data |}
  | ProfileScreen =>
      Some {| verb := PUT; url := "/profile"; body := Json (Profile.formData data) |}
  end.

End Screens.

(** The notification a screen shows for a failure that is not a validation
    error; its text does not depend on the error. *)
Definition generic_toast (scr : screen) : toast_data :=
  match scr with
  | ProfileScreen => Profile.failure_toast
  | _ => SignUp.failure_toast
  end.


(** The message of the [required] rule a schema carries unconditionally
    (outside any [when]), if it has one. *)
Fixpoint required_message (s : schema) : option string :=
  match s with
  | string_ => None
  | required m _ => Some m
  | email _ s' | min _ _ s' | test _ _ _ s' | oneOf _ _ s' | when _ _ _ _ s' =>
      required_message s'
  end.

(** A field is missing when its key is absent or its value is empty. *)
Definition missing (v : value) : Prop := v = undefined \/ v = str "".

(* ===================================================================== *)
(** ** The toast and its timer: [components/ToastContainer/Toast] *)
(* ===================================================================== *)

(** The component starts a timer when it is displayed and clears it when it
    goes away.  The embedding keeps what that touches apart: the list of
    messages (owned by the toast hook), the components on screen, each with
    the timer its effect started, and the browser's pending timers.  Time is
    counted in milliseconds, the unit of [setTimeout]; one [Tick] is one
    millisecond. *)

Module Toast.

(** Modelled from the spec: [ToastMessage] is declared in [hooks/toast],
    which is not among the source files.  A message has an identifier,
    unique per message, and its kind, title and optional description; the
    identifiers are drawn from a counter here. *)
Record ToastMessage : Type := { id : nat; content : toast_data }.

(** A pending browser timer.  The only callback the component registers is
    [() => removeToast(toast.id)], kept as the identifier it will remove. *)
Record timer : Type := { handle : nat; due : nat; target : nat }.

#[export] Instance timer_eq_dec : EqDecision timer.
Proof. solve_decision. Defined.

(** Who called [removeToast]: the timer's callback or the button. *)
Inductive origin : Type := ByTimer | ByClick.

#[export] Instance origin_eq_dec : EqDecision origin.
Proof. solve_decision. Defined.

(** A call of [removeToast], with whether the entry was still listed. *)
Record removal : Type := { caller : origin; removed : nat; present : bool }.

Record state : Type := {
  now : nat;                      (* the clock, in milliseconds *)
  messages : list ToastMessage;   (* the hook's list, in display order *)
  mounted : list (nat * nat);     (* components on screen: toast id, timer *)
  timers : list timer;            (* the browser's pending timers *)
  next_handle : nat;
  next_id : nat;
  log : list removal;             (* every call of removeToast so far *)
}.

Definition ids (s : state) : list nat := id <$> messages s.

Definition set_now (f : nat -> nat) (s : state) : state :=
  {| now := f (now s); messages := messages s; mounted := mounted s;
     timers := timers s; next_handle := next_handle s; next_id := next_id s;
     log := log s |}.

Definition set_messages (f : list ToastMessage -> list ToastMessage) (s : state) : state :=
  {| now := now s; messages := f (messages s); mounted := mounted s;
     timers := timers s; next_handle := next_handle s; next_id := next_id s;
     log := log s |}.

Definition set_mounted (f : list (nat * nat) -> list (nat * nat)) (s : state) : state :=
  {| now := now s; messages := messages s; mounted := f (mounted s);
     timers := timers s; next_handle := next_handle s; next_id := next_id s;
     log := log s |}.

Definition set_timers (f : list timer -> list timer) (s : state) : state :=
  {| now := now s; messages := messages s; mounted := mounted s;
     timers := f (timers s); next_handle := next_handle s; next_id := next_id s;
     log := log s |}.

Definition set_log (f : list removal -> list removal) (s : state) : state :=
  {| now := now s; messages := messages s; mounted := mounted s;
     timers := timers s; next_handle := next_handle s; next_id := next_id s;
     log := f (log s) |}.

(** *** The browser *)

(** [setTimeout(callback, delay)]: a new pending timer, due [delay]
    milliseconds from now; the result is its handle. *)
Definition setTimeout (callback : nat) (delay : nat) (s : state) : nat * state :=
  let h := next_handle s in
  (h, {| now := now s; messages := messages s; mounted := mounted s;
         timers := timers s ++ [{| handle := h; due := now s + delay; target := callback |}];
         next_handle := S h; next_id := next_id s; log := log s |}).

(** [clearTimeout(timer)]: the timer is pending no more. *)
Definition clearTimeout (h : nat) (s : state) : state :=
  set_timers (filter (fun t => handle t <> h)) s.

(** *** The component *)

(** The delay the effect passes to [setTimeout]. *)
Definition delay : nat := 3000.

(** The body of [useEffect], run when the toast is displayed.  Its
    dependencies are [toast.id] and [removeToast], which do not change while
    the component is on screen, so it runs once per display. *)
Definition effect (toast_id : nat) (s : state) : state :=
  let '(timer, s') := setTimeout toast_id delay s in
  set_mounted (fun l => l ++ [(toast_id, timer)]) s'.

(** The function the effect returns, run when the component goes away. *)
Definition cleanup (timer : nat) (s : state) : state := clearTimeout timer s.

(** The cleanups of the components in [l] that show [toast_id]. *)
Definition cleanups (toast_id : nat) (l : list (nat * nat)) (s : state) : state :=
  fold_left (fun s' c => if decide (c.1 = toast_id) then cleanup c.2 s' else s') l s.

(** The component for [toast_id] leaves the screen: its cleanup runs. *)
Definition unmount (toast_id : nat) (s : state) : state :=
  set_mounted (filter (fun c => c.1 <> toast_id)) (cleanups toast_id (mounted s) s).

(** *** The hook *)

(** Modelled from the spec: [hooks/toast] is not among the source files.
    [remove(id)] removes the entry with that identifier if present and is
    a no-op otherwise; the container shows one component per listed
    message, so the component of a removed message leaves the screen. *)
Definition removeToast (i : nat) (s : state) : state :=
  unmount i (set_messages (filter (fun m => id m <> i)) s).

(** Modelled from the spec: [add(message)] assigns a fresh unique
    identifier and appends to the list; the new message is displayed, which
    runs the component's effect. *)
Definition addToast (c : toast_data) (s : state) : state :=
  let i := next_id s in
  effect i {| now := now s; messages := messages s ++ [{| id := i; content := c |}];
              mounted := mounted s; timers := timers s;
              next_handle := next_handle s; next_id := S i; log := log s |}.

(** A call of [removeToast] from the component, recorded. *)
Definition call_removeToast (o : origin) (i : nat) (s : state) : state :=
  removeToast i
    (set_log (fun l => l ++ [{| caller := o; removed := i;
                                present := bool_decide (i ∈ ids s) |}]) s).

(** *** What can happen *)

Inductive event : Type :=
| Add (c : toast_data)        (* somebody calls addToast *)
| Click (toast_id : nat)      (* the user presses the toast's button *)
| Teardown (toast_id : nat)   (* the toast's component is torn down *)
| Tick.                       (* a millisecond passes *)

(** A pending timer that has come due runs its callback, once. *)
Definition fire (t : timer) (s : state) : state :=
  if decide (t ∈ timers s)
  then call_removeToast ByTimer (target t)
         (set_timers (filter (fun t' => handle t' <> handle t)) s)
  else s.

(** The clock advances; the timers that are due fire in the order they were
    set, each only if nothing cleared it in the meantime. *)
Definition tick (s : state) : state :=
  let s' := set_now S s in
  fold_left (fun s'' t => fire t s'') (filter (fun t => due t <= now s') (timers s')) s'.

(** The button exists only while the component is on screen. *)
Definition click (i : nat) (s : state) : state :=
  if decide (i ∈ (mounted s).*1) then call_removeToast ByClick i s else s.

Definition step (s : state) (ev : event) : state :=
  match ev with
  | Add c => addToast c s
  | Click i => click i s
  | Teardown i => unmount i s
  | Tick => tick s
  end.

Definition run (s : state) (evs : list event) : state := fold_left step evs s.

(** The list is empty on load. *)
Definition initial : state :=
  {| now := 0; messages := []; mounted := []; timers := [];
     next_handle := 0; next_id := 0; log := [] |}.

Definition reachable (s : state) : Prop := exists evs, s = run initial evs.

(** *** Reading a run *)

Definition is_tick (ev : event) : bool :=
  match ev with Tick => true | _ => false end.

(** Milliseconds elapsed during the events. *)
Definition elapsed (evs : list event) : nat := length (List.filter is_tick evs).

(** The events leave toast [i] alone: no click on it, no teardown of it. *)
Definition leaves_alone (i : nat) (ev : event) : bool :=
  match ev with
  | Click j | Teardown j => negb (Nat.eqb j i)
  | _ => true
  end.

Definition untouched (i : nat) (evs : list event) : bool :=
  forallb (leaves_alone i) evs.

(** How many times the timer's callback asked to remove [i]. *)
Definition timer_removals (i : nat) (s : state) : nat :=
  length (filter (fun r => caller r = ByTimer /\ removed r = i) (log s)).

(** A pending timer that would remove [i]. *)
Definition countdown_pending (i : nat) (s : state) : Prop :=
  exists t, t ∈ timers s /\ target t = i.

(** *** Invariants of a run *)

(** Nothing of toast [i] is left to act: no pending timer would remove it,
    no component shows it, and the timer's callback has asked [n] times to
    remove it. *)
Definition Quiet (i n : nat) (s : state) : Prop :=
  i < next_id s /\
  (forall t, t ∈ timers s -> target t <> i) /\
  (forall h, (i, h) ∉ mounted s) /\
  timer_removals i s = n.

(** Toast [i] is on screen with its countdown running: listed, shown by
    one component whose timer [h] is pending and due at [d], no other timer
    concerns it and the timer's callback has not yet asked to remove it. *)
Definition Live (i h d : nat) (s : state) : Prop :=
  i ∈ ids s /\
  (i, h) ∈ mounted s /\
  (forall j h', (j, h') ∈ mounted s -> (j = i <-> h' = h)) /\
  {| handle := h; due := d; target := i |} ∈ timers s /\
  (forall t, t ∈ timers s -> target t = i \/ handle t = h ->
             t = {| handle := h; due := d; target := i |}) /\
  i < next_id s /\ h < next_handle s /\
  timer_removals i s = 0.

(** Identifiers and handles in use are below the counters. *)
Definition Fresh (s : state) : Prop :=
  (forall m, m ∈ messages s -> id m < next_id s) /\
  (forall j h, (j, h) ∈ mounted s -> j < next_id s /\ h < next_handle s) /\
  (forall t, t ∈ timers s -> target t < next_id s /\ handle t < next_handle s) /\
  (forall r, r ∈ log s -> removed r < next_id s).

(** Every pending timer belongs to a component on screen, every component
    on screen shows a listed message, and every call of [removeToast] so far
    found its entry listed. *)
Definition Sound (s : state) : Prop :=
  (forall t, t ∈ timers s -> (target t, handle t) ∈ mounted s) /\
  (forall j h, (j, h) ∈ mounted s -> j ∈ ids s) /\
  (forall r, r ∈ log s -> present r = true).

(** A toast that is off the list and quiet. *)
Definition Gone (i n : nat) (s : state) : Prop := Quiet i n s /\ i ∉ ids s.

End Toast.
Import Toast.

(* ===================================================================== *)
(** ** Sample inputs *)
(* ===================================================================== *)

(** A stand-in for the library's e-mail pattern, for running the handlers on
    concrete data: one [@] with something on both sides. *)
Fixpoint at_signs (s : string) : nat :=
  match s with
  | EmptyString => 0
  | String c rest => (if Ascii.eqb c "@" then 1 else 0) + at_signs rest
  end.

Definition sample_rEmail (s : string) : bool :=
  Nat.eqb (at_signs s) 1
  && negb (String.prefix "@" s)
  && negb (String.eqb (String.substring (String.length s - 1) 1 s) "@").

Definition server_up (r : request) : option object := Some ∅.
Definition server_down (r : request) : option object := None.

Definition signin_ok : object :=
  {[ "email" := str "a@b.com"; "password" := str "secret1" ]}.

Definition signup_ok : object :=
  {[ "name" := str "Ana"; "email" := str "a@b.com"; "password" := str "123456" ]}.

Definition signup_no_name : object :=
  {[ "name" := str ""; "email" := str "a@b.com"; "password" := str "123456" ]}.

Definition profile_ok : object :=
  {[ "name" := str "Ana"; "email" := str "a@b.com";
     "old_password" := str "oldpass"; "password" := str "newpass1";
     "password_confirmation" := str "newpass1" ]}.

Definition profile_old_only : object :=
  {[ "name" := str "Ana"; "email" := str "a@b.com";
     "old_password" := str "oldpass"; "password" := str "";
     "password_confirmation" := str "" ]}.

(* ===================================================================== *)
(** ** More readings of a trace *)
(* ===================================================================== *)

(** The paths given to [history.push], in order. *)
Definition pushed (tr : list action) : list string :=
  flat_map (fun a => match a with HistoryPush p => [p] | _ => [] end) tr.

(** The toasts given to [addToast], in order. *)
Definition shown (tr : list action) : list toast_data :=
  flat_map (fun a => match a with AddToast t => [t] | _ => [] end) tr.

(** The users given to [updateUser], in order. *)
Definition user_updates (tr : list action) : list object :=
  flat_map (fun a => match a with UpdateUser u => [u] | _ => [] end) tr.

(** A string value that is not empty. *)
Definition filled (v : value) : Prop := exists s, v = str s /\ s <> "".

(** The toast a screen shows when its request succeeded. *)
Definition success_toast (scr : screen) : toast_data :=
  match scr with
  | ProfileScreen => Profile.success_toast
  | _ => SignUp.success_toast
  end.

(** The named inputs a screen's form holds, in the order of its markup.
    (The file input of the avatar has an empty name and is not one.) *)
Definition inputs (scr : screen) : list string :=
  match scr with
  | SignInScreen => ["email"; "password"]
  | SignUpScreen => ["name"; "email"; "password"]
  | ProfileScreen =>
      ["name"; "email"; "old_password"; "password"; "password_confirmation"]
  end.

(** Data as a form delivers it: a string for every input. *)
Definition delivered (scr : screen) (data : object) : Prop :=
  forall k, In k (inputs scr) -> exists s, get data k = str s.

(* ===================================================================== *)
(** ** [routes/index.tsx] *)
(* ===================================================================== *)

(** The route table and what the router does with it.  A path here is a
    static one (no parameters), as the only registered path is. *)

Module Router.

(** The screens a route can render; the table names one. *)
Inductive page : Type := SignInPage.

(** [<Route path=... exact component=... />] *)
Record route : Type := { path : string; exact : bool; component : page }.

(** Paths are compared without regard to case. *)
Definition lower (c : ascii) : ascii :=
  let n := nat_of_ascii c in
  if Nat.leb 65 n && Nat.leb n 90 then ascii_of_nat (n + 32) else c.

Fixpoint lowercase (s : string) : string :=
  match s with
  | EmptyString => EmptyString
  | String c rest => String (lower c) (lowercase rest)
  end.

(** One trailing slash does not count. *)
Fixpoint strip_slash (s : string) : string :=
  match s with
  | EmptyString => EmptyString
  | String c EmptyString => if Ascii.eqb c "/" then EmptyString else s
  | String c rest => String c (strip_slash rest)
  end.

(** Whether a route matches a location: an exact route matches its own path
    only, another one also every path below it. *)
Definition matchPath (r : route) (pathname : string) : bool :=
  let p := lowercase (strip_slash (path r)) in
  let q := lowercase pathname in
  String.eqb (strip_slash q) p
  || (negb (exact r) && String.prefix (p ++ "/")%string q).

(** [<Switch>]: the first route that matches is rendered, or nothing. *)
Definition Switch (routes : list route) (pathname : string) : option page :=
  match List.find (fun r => matchPath r pathname) routes with
  | Some r => Some (component r)
  | None => None
  end.

(** The table: [<Route path="/" exact component={SignIn} />]. *)
Definition Routes : list route :=
  [ {| path := "/"; exact := true; component := SignInPage |} ].

End Router.

(* ===================================================================== *)
(** ** Toasts and timers, paired *)
(* ===================================================================== *)

(** Components on screen and pending timers go in pairs: a component's timer
    is pending, no two components share a timer, no toast is shown by two
    components and no two pending timers share a handle. *)
Definition Paired (s : Toast.state) : Prop :=
  (forall i h, (i, h) ∈ Toast.mounted s ->
     exists d, {| Toast.handle := h; Toast.due := d; Toast.target := i |} ∈ Toast.timers s) /\
  (forall i j h, (i, h) ∈ Toast.mounted s -> (j, h) ∈ Toast.mounted s -> i = j) /\
  (forall i h h', (i, h) ∈ Toast.mounted s -> (i, h') ∈ Toast.mounted s -> h = h') /\
  (forall t t', t ∈ Toast.timers s -> t' ∈ Toast.timers s ->
     Toast.handle t = Toast.handle t' -> t = t').

(** Every pending timer is due in the future, no further away than the
    component's delay. *)
Definition Punctual (s : Toast.state) : Prop :=
  forall t, t ∈ Toast.timers s ->
    Toast.now s < Toast.due t <= Toast.now s + Toast.delay.

(* ===================================================================== *)
(** ** Facts about values and traces *)
(* ===================================================================== *)

Lemma value_eqb_spec a b : value_eqb a b = true <-> a = b.
Proof.
  destruct a, b; simpl; try (split; congruence).
  rewrite String.eqb_eq. split; congruence.
Qed.

Lemma truthy_str s : truthy (str s) = true <-> s <> "".
Proof.
  simpl. rewrite negb_true_iff. split.
  - intros H ->. discriminate.
  - intros H. destruct (String.eqb_spec s ""); congruence.
Qed.

Lemma count_app p (l1 l2 : list action) :
  count p (l1 ++ l2) = count p l1 + count p l2.
Proof. unfold count. by rewrite List.filter_app, length_app. Qed.

(* ===================================================================== *)
(** ** Facts about validation *)
(* ===================================================================== *)

Arguments validate : simpl never.
Arguments report : simpl never.
Arguments errors_at : simpl never.

Section ValidationFacts.
Variable rEmail : string -> bool.
Implicit Types (data : object) (sh : shape) (path : string).

Lemma validate_returned sh data :
  validate rEmail sh data = Returned tt <-> report rEmail sh data = Returned [].
Proof.
  unfold validate. destruct (report rEmail sh data) as [[|e inner]|e]; simpl;
    split; congruence.
Qed.

Lemma validate_thrown_validation sh data inner :
  report rEmail sh data = Returned inner -> inner <> [] ->
  validate rEmail sh data = Thrown (ValidationError inner).
Proof.
  unfold validate. intros -> H. destruct inner; [congruence | reflexivity].
Qed.

Lemma validate_thrown sh data e :
  report rEmail sh data = Thrown e -> validate rEmail sh data = Thrown e.
Proof. unfold validate. by intros ->. Qed.

(** The failures on one path are those of the fields with that name. *)
Lemma filter_field_errors data path (fs : list (string * list rule)) :
  List.filter (fun e => String.eqb (fst e) path)
              (flat_map (field_errors rEmail data) fs) =
  flat_map (field_errors rEmail data)
           (List.filter (fun f => String.eqb (fst f) path) fs).
Proof.
  induction fs as [|[k rs] fs IH]; [reflexivity|].
  cbn [flat_map List.filter fst]. rewrite List.filter_app, IH.
  assert (Hk : List.filter (fun e : string * message => String.eqb (fst e) path)
                 (field_errors rEmail data (k, rs)) =
               if String.eqb k path then field_errors rEmail data (k, rs) else []).
  { unfold field_errors. cbn [fst snd].
    induction (check rEmail data rs (get data k)) as [|m l IHl].
    - by destruct (String.eqb k path).
    - cbn [map List.filter fst]. rewrite IHl. by destruct (String.eqb k path). }
  rewrite Hk. destruct (String.eqb k path); reflexivity.
Qed.

Lemma errors_at_resolved sh data path fs :
  resolve_fields data sh = Returned fs ->
  errors_at rEmail sh data path =
  Returned (flat_map (fun f => check rEmail data (snd f) (get data (fst f)))
              (List.filter (fun f => String.eqb (fst f) path) fs)).
Proof.
  intros R. unfold errors_at, report. rewrite R. cbn [and_then].
  rewrite filter_field_errors. f_equal.
  induction (List.filter _ fs) as [|f l IH]; [reflexivity|].
  cbn [flat_map]. rewrite map_app, IH. f_equal.
  unfold field_errors. rewrite map_map. cbn [snd]. apply map_id.
Qed.

(** Only the profile schema has a condition; the other two resolve to the
    same rules whatever the data. *)
Lemma resolve_signin data :
  resolve_fields data SignIn.schema =
  Returned [ ("email", [Remail "Digite um email válido"; Rrequired "Email Obrigatório"]);
             ("password", [Rrequired "Senha obrigatória"]) ].
Proof. reflexivity. Qed.

Lemma resolve_signup data :
  resolve_fields data SignUp.schema =
  Returned [ ("name", [Rrequired "Nome Obrigatório"]);
             ("email", [Remail "Digite um email válido"; Rrequired "Email Obrigatório"]);
             ("password", [Rmin 6 "No mínimo 6 dígitos"]) ].
Proof. reflexivity. Qed.

Lemma resolve_profile data p :
  get data "password" = str p ->
  resolve_fields data Profile.schema =
  Returned [ ("name", [Rrequired "Nome Obrigatório"]);
             ("email", [Remail "Digite um email válido"; Rrequired "Email Obrigatório"]);
             ("old_password",
               if String.eqb p "" then []
               else [Rrequired "Obrigatório ao informar a nova senha"]);
             ("password", [Rtest "Senha maior que 6 caracteres" Profile.len]);
             ("password_confirmation",
               [RoneOf [ref "password"; lit undefined] "Confirme a nova senha"]) ].
Proof.
  intros H. cbn. rewrite H. cbn. destruct p; reflexivity.
Qed.

Lemma resolve_profile_absent data :
  isAbsent (get data "password") = true ->
  resolve_fields data Profile.schema = Thrown TypeError.
Proof.
  intros H. cbn. destruct (get data "password"); [reflexivity..|discriminate].
Qed.

End ValidationFacts.

(* ===================================================================== *)
(** ** Facts about the handlers *)
(* ===================================================================== *)

(** The field map holds, for a path, the message of the last inner error on
    that path. *)
Lemma getValidationErrors_lookup inner path :
  getValidationErrors (ValidationError inner) !! path =
  last (map snd (List.filter (fun e => String.eqb (fst e) path) inner)).
Proof.
  unfold getValidationErrors.
  assert (G : forall (acc : gmap string message),
    fold_left (fun errors e => <[fst e := snd e]> errors) inner acc !! path =
    match last
            (map snd (List.filter (fun e => String.eqb (fst e) path) inner)) with
    | Some m => Some m
    | None => acc !! path
    end).
  { induction inner as [|[k m] inner IH]; intros acc; [reflexivity|].
    cbn [fold_left List.filter fst snd]. rewrite IH.
    destruct (String.eqb_spec k path) as [->|Hne].
    - cbn [map snd]. rewrite last_cons.
      destruct (last (map snd _)); [reflexivity|].
      by rewrite lookup_insert_eq.
    - destruct (last (map snd _)); [reflexivity|].
      by rewrite lookup_insert_ne. }
  rewrite G. by destruct (last _).
Qed.

Section HandlerFacts.
Variable rEmail : string -> bool.
Variable server : request -> option object.
Variable formRef_current : bool.
Implicit Types (data : object).

Lemma signin_trace data :
  trace (SignIn.handleSubmit rEmail formRef_current data) =
  (if formRef_current then [SetErrors {[ "name" := Msg "Nome obrigatório" ]}] else [])
  ++ Validate data ::
     match validate rEmail SignIn.schema data with
     | Returned _ => []
     | Thrown e => trace (SignIn.recover formRef_current e)
     end.
Proof.
  unfold SignIn.handleSubmit, SignIn.submission, schema_validate, try_catch,
    formRef_setErrors.
  destruct formRef_current, (validate rEmail SignIn.schema data) as [[]|e];
    reflexivity.
Qed.

Lemma signup_trace data :
  let r := {| verb := POST; url := "/users"; body := Json data |} in
  trace (SignUp.handleSubmit rEmail server formRef_current data) =
  Validate data ::
  match validate rEmail SignUp.schema data with
  | Returned _ =>
      Http r ::
      match server r with
      | Some _ => [AddToast SignUp.success_toast; HistoryPush "/dashboard"]
      | None => [AddToast SignUp.failure_toast]
      end
  | Thrown e => trace (SignUp.recover formRef_current e)
  end.
Proof.
  unfold SignUp.handleSubmit, SignUp.submission, schema_validate, api, try_catch.
  destruct (validate rEmail SignUp.schema data) as [[]|e]; cbn;
    [destruct (server _)|]; reflexivity.
Qed.

Lemma profile_trace data :
  let r := {| verb := PUT; url := "/profile"; body := Json (Profile.formData data) |} in
  trace (Profile.handleSubmit rEmail server formRef_current data) =
  Validate data ::
  match validate rEmail Profile.schema data with
  | Returned _ =>
      Http r ::
      match server r with
      | Some _ => [AddToast Profile.success_toast; HistoryPush "/dashboard"]
      | None => [AddToast Profile.failure_toast]
      end
  | Thrown e => trace (Profile.recover formRef_current e)
  end.
Proof.
  unfold Profile.handleSubmit, Profile.submission, schema_validate, api, try_catch.
  destruct (validate rEmail Profile.schema data) as [[]|e]; cbn;
    [destruct (server _)|]; reflexivity.
Qed.

(** The [catch] blocks never send a request. *)
Lemma recover_no_request scr e :
  requests (trace (match scr with
                   | SignInScreen => SignIn.recover formRef_current e
                   | SignUpScreen => SignUp.recover formRef_current e
                   | ProfileScreen => Profile.recover formRef_current e
                   end)) = 0.
Proof.
  destruct scr; unfold SignIn.recover, SignUp.recover, Profile.recover,
    formRef_setErrors; destruct formRef_current, e; reflexivity.
Qed.

End HandlerFacts.

(* ===================================================================== *)
(** ** The profile schema *)
(* ===================================================================== *)

Section ProfileSchema.
Variable rEmail : string -> bool.
Implicit Types (data : object).

(** With a string in [password] the schema resolves, so validation ends in
    a verdict: accepted, or a validation error. *)
Lemma profile_verdict data p :
  get data "password" = str p ->
  validate rEmail Profile.schema data = Returned tt \/
  exists inner, validate rEmail Profile.schema data = Thrown (ValidationError inner).
Proof.
  intros H. unfold validate, report. rewrite (resolve_profile data p H).
  cbn [and_then]. destruct (flat_map _ _); [left | right; eexists]; reflexivity.
Qed.

(** Without a string in [password] the condition's callback throws. *)
Lemma profile_throws data :
  isAbsent (get data "password") = true ->
  validate rEmail Profile.schema data = Thrown TypeError.
Proof.
  intros H. apply validate_thrown. unfold report.
  by rewrite resolve_profile_absent.
Qed.

Lemma profile_old_password_errors data p :
  get data "password" = str p ->
  errors_at rEmail Profile.schema data "old_password" =
  Returned (check rEmail data
              (if String.eqb p "" then []
               else [Rrequired "Obrigatório ao informar a nova senha"])
              (get data "old_password")).
Proof.
  intros H. rewrite (errors_at_resolved rEmail _ _ _ _ (resolve_profile data p H)).
  cbn. by rewrite app_nil_r.
Qed.

Lemma profile_confirmation_errors data p :
  get data "password" = str p ->
  errors_at rEmail Profile.schema data "password_confirmation" =
  Returned (check rEmail data
              [RoneOf [ref "password"; lit undefined] "Confirme a nova senha"]
              (get data "password_confirmation")).
Proof.
  intros H. rewrite (errors_at_resolved rEmail _ _ _ _ (resolve_profile data p H)).
  cbn. by rewrite app_nil_r.
Qed.

(** An absent confirmation is on the schema's list and is accepted. *)
Lemma profile_confirmation_absent data p :
  get data "password" = str p ->
  get data "password_confirmation" = undefined ->
  errors_at rEmail Profile.schema data "password_confirmation" = Returned [].
Proof.
  intros H C. rewrite (profile_confirmation_errors data p H), C. reflexivity.
Qed.

End ProfileSchema.

(** C9. The condition on [old_password] reads [val.length] of the password
    value.  Profile validation gives a verdict (accepted, or a validation
    error) whenever the password field is a string, and throws a [TypeError]
    instead whenever the password field is [undefined] or [null]. *)
Theorem profile_validation_total_only_on_string_password
  (rEmail : string -> bool) (data : object) :
  (forall p, get data "password" = str p ->
     validate rEmail Profile.schema data = Returned tt \/
     exists inner, validate rEmail Profile.schema data = Thrown (ValidationError inner))
  /\
  (get data "password" = undefined \/ get data "password" = null ->
     validate rEmail Profile.schema data = Thrown TypeError).
Proof.
  split.
  - intros p H. by apply profile_verdict with p.
  - intros H. apply profile_throws. destruct H as [-> | ->]; reflexivity.
Qed.

Lemma profile_validation_total_only_on_string_password_witness :
  validate sample_rEmail Profile.schema (delete "password" profile_ok) = Thrown TypeError
  /\ validate sample_rEmail Profile.schema (<["password" := null]> profile_ok)
     = Thrown TypeError.
Proof.
  split.
  - apply (profile_validation_total_only_on_string_password sample_rEmail
             (delete "password" profile_ok)).
    left. vm_compute. reflexivity.
  - apply (profile_validation_total_only_on_string_password sample_rEmail
             (<["password" := null]> profile_ok)).
    right. vm_compute. reflexivity.
Defined.

(** C5. In a profile submission the schema requires [old_password] to be
    non-empty if and only if a new password is supplied: a non-empty previous
    password is always accepted, and an empty or absent one is rejected (with
    'Obrigatório ao informar a nova senha') exactly when the password field
    is non-empty. *)
Theorem old_password_required_iff_new_password
  (rEmail : string -> bool) (data : object) (p : string) :
  get data "password" = str p ->
  (forall o, get data "old_password" = str o -> o <> "" ->
     errors_at rEmail Profile.schema data "old_password" = Returned [])
  /\
  (get data "old_password" = str "" \/ get data "old_password" = undefined ->
     (errors_at rEmail Profile.schema data "old_password"
        = Returned [Msg "Obrigatório ao informar a nova senha"] <-> p <> "")
     /\
     (errors_at rEmail Profile.schema data "old_password" = Returned [] <-> p = "")).
Proof.
  intros H. rewrite (profile_old_password_errors rEmail data p H). split.
  - intros o Ho Hne. rewrite Ho.
    destruct (String.eqb p ""); [reflexivity|].
    destruct o; [congruence | reflexivity].
  - intros Ho. destruct (String.eqb_spec p "") as [-> | Hp].
    + destruct Ho as [-> | ->]; cbn; (split; split; congruence).
    + destruct Ho as [-> | ->]; cbn; (split; split; congruence).
Qed.

Lemma old_password_required_iff_new_password_witness :
  errors_at sample_rEmail Profile.schema (<["old_password" := str ""]> profile_ok)
    "old_password" = Returned [Msg "Obrigatório ao informar a nova senha"].
Proof.
  apply (old_password_required_iff_new_password sample_rEmail
           (<["old_password" := str ""]> profile_ok) "newpass1").
  - vm_compute. reflexivity.
  - left. vm_compute. reflexivity.
  - discriminate.
Defined.

(** C4. In a profile submission that supplies a new password (a non-empty
    password field), the schema accepts the [password_confirmation] field only
    when it equals the new password; a confirmation that differs is rejected
    with the validation error 'Confirme a nova senha'. *)
Theorem confirmation_must_equal_new_password
  (rEmail : string -> bool) (data : object) (p c : string) :
  get data "password" = str p -> p <> "" ->
  get data "password_confirmation" = str c ->
  (errors_at rEmail Profile.schema data "password_confirmation" = Returned []
     <-> c = p)
  /\
  (c <> p ->
     errors_at rEmail Profile.schema data "password_confirmation"
       = Returned [Msg "Confirme a nova senha"]
     /\ exists inner,
          validate rEmail Profile.schema data = Thrown (ValidationError inner)
          /\ In ("password_confirmation", Msg "Confirme a nova senha") inner).
Proof.
  intros H Hp C.
  assert (E : check rEmail data
                [RoneOf [ref "password"; lit undefined] "Confirme a nova senha"]
                (get data "password_confirmation")
              = if String.eqb p c then [] else [Msg "Confirme a nova senha"]).
  { rewrite C. unfold check. cbn. rewrite H. cbn.
    rewrite orb_false_r. by destruct (String.eqb p c). }
  rewrite (profile_confirmation_errors rEmail data p H), E.
  destruct (String.eqb_spec p c) as [-> | Hne].
  - split; [split; congruence | congruence].
  - split; [split; congruence|]. intros _. split; [reflexivity|].
    exists (flat_map (field_errors rEmail data)
              [ ("name", [Rrequired "Nome Obrigatório"]);
                ("email", [Remail "Digite um email válido"; Rrequired "Email Obrigatório"]);
                ("old_password",
                  if String.eqb p "" then []
                  else [Rrequired "Obrigatório ao informar a nova senha"]);
                ("password", [Rtest "Senha maior que 6 caracteres" Profile.len]);
                ("password_confirmation",
                  [RoneOf [ref "password"; lit undefined] "Confirme a nova senha"]) ]).
    assert (Hin : In ("password_confirmation", Msg "Confirme a nova senha")
                     (field_errors rEmail data
                        ("password_confirmation",
                         [RoneOf [ref "password"; lit undefined] "Confirme a nova senha"]))).
    { unfold field_errors. cbn [fst snd]. rewrite E. left. reflexivity. }
    match goal with |- _ /\ In ?x ?l => assert (Hall : In x l) end.
    { cbn [flat_map]. do 4 (apply in_or_app; right). apply in_or_app. by left. }
    split; [|exact Hall].
    apply validate_thrown_validation.
    + unfold report. by rewrite (resolve_profile data p H).
    + intros Hnil. rewrite Hnil in Hall. destruct Hall.
Qed.

Lemma confirmation_must_equal_new_password_witness :
  errors_at sample_rEmail Profile.schema
    (<["password_confirmation" := str "newpass2"]> profile_ok)
    "password_confirmation" = Returned [Msg "Confirme a nova senha"].
Proof.
  apply (confirmation_must_equal_new_password sample_rEmail
           (<["password_confirmation" := str "newpass2"]> profile_ok)
           "newpass1" "newpass2").
  - vm_compute. reflexivity.
  - discriminate.
  - vm_compute. reflexivity.
  - discriminate.
Defined.

(* ===================================================================== *)
(** ** The profile update request *)
(* ===================================================================== *)

Lemma required_accepts rEmail (data : object) m v :
  check rEmail data [Rrequired m] v = [] -> exists s, v = str s /\ s <> "".
Proof.
  destruct v as [| |s]; cbn; try discriminate.
  destruct s; cbn; [discriminate|]. intros _. eexists. split; [reflexivity|discriminate].
Qed.

Lemma required_email_accepts rEmail (data : object) m1 m2 v :
  check rEmail data [Remail m1; Rrequired m2] v = [] -> exists s, v = str s /\ s <> "".
Proof.
  destruct v as [| |s]; cbn; try discriminate.
  destruct s; cbn; [discriminate|]. intros _. eexists. split; [reflexivity|discriminate].
Qed.

(** What an accepted profile submission looks like. *)
Lemma profile_accepted_inv rEmail (data : object) :
  validate rEmail Profile.schema data = Returned tt ->
  (exists n, get data "name" = str n /\ n <> "") /\
  (exists e, get data "email" = str e /\ e <> "") /\
  (exists p, get data "password" = str p).
Proof.
  intros V.
  destruct (get data "password") as [| |p] eqn:P;
    [rewrite profile_throws in V by (by rewrite P); discriminate..|].
  apply validate_returned in V. unfold report in V.
  rewrite (resolve_profile data p P) in V. cbn [and_then flat_map] in V.
  injection V as V.
  apply app_eq_nil in V as [V1 V]. apply app_eq_nil in V as [V2 _].
  unfold field_errors in V1, V2. cbn [fst snd] in V1, V2.
  apply map_eq_nil in V1, V2.
  split; [by eapply required_accepts|].
  split; [by eapply required_email_accepts|].
  by exists p.
Qed.

(** The keys of the request body. *)
Lemma formData_lookup (data : object) :
  let body := Profile.formData data in
  body !! "name" = Some (get data "name") /\
  body !! "email" = Some (get data "email") /\
  (forall k, k = "old_password" \/ k = "password" \/ k = "password_confirmation" ->
     body !! k = if truthy (get data "old_password") then Some (get data k) else None).
Proof.
  unfold Profile.formData. cbn zeta.
  destruct (truthy (get data "old_password")).
  - split; [|split]; [by simplify_map_eq..|].
    intros k [-> | [-> | ->]]; by simplify_map_eq.
  - rewrite (left_id_L ∅ (∪)).
    split; [|split]; [by simplify_map_eq..|].
    intros k [-> | [-> | ->]]; by simplify_map_eq.
Qed.

Lemma truthy_non_empty (v : value) :
  truthy v = true <-> exists s, v = str s /\ s <> "".
Proof.
  destruct v as [| |s].
  - split; [discriminate | intros (s & ? & _); discriminate].
  - split; [discriminate | intros (s & ? & _); discriminate].
  - rewrite truthy_str. split.
    + intros H. by exists s.
    + intros (s' & [= <-] & H). exact H.
Qed.

(** C10. For a profile submission that passes validation the update request
    carries a body that always contains [name] and [email] (both non-empty),
    and contains [old_password], [password] and [password_confirmation], with
    the submitted values, exactly when the [old_password] field is non-empty:
    the decision looks at [old_password] only, so the new password travels
    even when it is empty. *)
Theorem profile_body_keyed_on_old_password
  (rEmail : string -> bool) (server : request -> option object)
  (formRef_current : bool) (data : object) :
  validate rEmail Profile.schema data = Returned tt ->
  let body := Profile.formData data in
  List.filter is_request
    (trace (Profile.handleSubmit rEmail server formRef_current data))
    = [Http {| verb := PUT; url := "/profile"; body := Json body |}]
  /\ (exists n, body !! "name" = Some (str n) /\ n <> "")
  /\ (exists e, body !! "email" = Some (str e) /\ e <> "")
  /\ ((exists o, get data "old_password" = str o /\ o <> "") ->
        body !! "old_password" = Some (get data "old_password") /\
        body !! "password" = Some (get data "password") /\
        body !! "password_confirmation" = Some (get data "password_confirmation"))
  /\ (~ (exists o, get data "old_password" = str o /\ o <> "") ->
        body !! "old_password" = None /\
        body !! "password" = None /\
        body !! "password_confirmation" = None).
Proof.
  intros V body.
  destruct (profile_accepted_inv rEmail data V) as ((n & Hn & Hn') & (e & He & He') & _).
  destruct (formData_lookup data) as (Bn & Be & Bk). fold body in Bn, Be, Bk.
  split; [|split; [|split; [|split]]].
  - rewrite profile_trace, V. cbn zeta. fold body.
    destruct (server _); reflexivity.
  - exists n. by rewrite Bn, Hn.
  - exists e. by rewrite Be, He.
  - intros Ho. apply truthy_non_empty in Ho.
    rewrite !Bk, Ho by tauto. done.
  - intros Ho. rewrite <- truthy_non_empty in Ho.
    apply not_true_is_false in Ho. rewrite !Bk, Ho by tauto. done.
Qed.

Lemma profile_body_keyed_on_old_password_witness :
  Profile.formData profile_old_only !! "old_password" = Some (str "oldpass") /\
  Profile.formData profile_old_only !! "password" = Some (str "") /\
  Profile.formData profile_old_only !! "password_confirmation" = Some (str "").
Proof.
  assert (V : validate sample_rEmail Profile.schema profile_old_only = Returned tt)
    by (vm_compute; reflexivity).
  destruct (profile_body_keyed_on_old_password sample_rEmail server_up true
              profile_old_only V) as (_ & _ & _ & H & _).
  apply H. exists "oldpass". split; [vm_compute; reflexivity | discriminate].
Defined.

(* ===================================================================== *)
(** ** The sign-in handler *)
(* ===================================================================== *)

(** The sign-in [try] block has nothing that can fail but validation. *)
Lemma signin_only_validation_fails rEmail fr (data : object) e :
  result (SignIn.submission rEmail fr data) = Thrown e ->
  exists inner, e = ValidationError inner /\ inner <> []
                /\ validate rEmail SignIn.schema data = Thrown (ValidationError inner).
Proof.
  unfold SignIn.submission, schema_validate, formRef_setErrors.
  unfold validate, report. rewrite resolve_signin. cbn [and_then].
  destruct (flat_map _ _) as [|x l] eqn:E; destruct fr; cbn; try discriminate.
  all: intros [= <-]; exists (x :: l); done.
Qed.

Lemma signin_no_request rEmail fr (data : object) :
  requests (trace (SignIn.handleSubmit rEmail fr data)) = 0.
Proof.
  rewrite signin_trace. unfold requests. rewrite count_app.
  change (count is_request (Validate data :: ?l)) with (count is_request l).
  destruct (validate rEmail SignIn.schema data) as [[]|e].
  - by destruct fr.
  - fold (requests (trace (SignIn.recover fr e))).
    rewrite (recover_no_request fr SignInScreen e). by destruct fr.
Qed.

Lemma signin_no_toast rEmail fr (data : object) :
  toasts (trace (SignIn.handleSubmit rEmail fr data)) = 0.
Proof.
  rewrite signin_trace.
  destruct (validate rEmail SignIn.schema data) as [[]|e];
    unfold SignIn.recover, formRef_setErrors; by destruct fr.
Qed.

(** C3. Whatever the submitted data, the sign-in submit handler (called by
    the mounted form) first sets the field error 'Nome obrigatório' on the
    'name' field, and only then runs validation. *)
Theorem signin_sets_name_error_before_validation
  (rEmail : string -> bool) (data : object) :
  exists rest,
    trace (SignIn.handleSubmit rEmail true data)
      = SetErrors {[ "name" := Msg "Nome obrigatório" ]} :: Validate data :: rest
    /\ count is_validate rest = 0.
Proof.
  rewrite signin_trace. eexists. split; [reflexivity|].
  destruct (validate rEmail SignIn.schema data) as [[]|e]; reflexivity.
Qed.

(** C1, as the code has it.  For a sign-in submission whose data passes the
    sign-in schema the handler sets the 'name' field error, runs validation
    and returns: it issues no HTTP request and shows no notification. *)
Theorem signin_accepted_sends_nothing
  (rEmail : string -> bool) (formRef_current : bool) (data : object) :
  validate rEmail SignIn.schema data = Returned tt ->
  trace (SignIn.handleSubmit rEmail formRef_current data)
    = (if formRef_current
       then [SetErrors {[ "name" := Msg "Nome obrigatório" ]}] else [])
      ++ [Validate data]
  /\ requests (trace (SignIn.handleSubmit rEmail formRef_current data)) = 0
  /\ toasts (trace (SignIn.handleSubmit rEmail formRef_current data)) = 0.
Proof.
  intros V. split; [|split].
  - by rewrite signin_trace, V.
  - apply signin_no_request.
  - apply signin_no_toast.
Qed.

Lemma signin_accepted_sends_nothing_witness :
  requests (trace (SignIn.handleSubmit sample_rEmail true signin_ok)) = 0
  /\ toasts (trace (SignIn.handleSubmit sample_rEmail true signin_ok)) = 0.
Proof.
  apply (signin_accepted_sends_nothing sample_rEmail true signin_ok).
  vm_compute. reflexivity.
Defined.

(** C1 as stated fails: the data of the specification's example passes the
    sign-in schema and the handler issues no request at all, not one. *)
Lemma signin_example_issues_no_request :
  validate sample_rEmail SignIn.schema signin_ok = Returned tt
  /\ requests (trace (SignIn.handleSubmit sample_rEmail true signin_ok)) <> 1.
Proof. split; [vm_compute; reflexivity | vm_compute; discriminate]. Qed.

(* ===================================================================== *)
(** ** Submission on the three screens *)
(* ===================================================================== *)

Section Submission.
Variable rEmail : string -> bool.
Variable server : request -> option object.
Implicit Types (data : object) (scr : screen).


(** The trace of a submission that validation rejects, on a mounted form:
    validation, then the field mapping, and nothing else (after the
    'name' error that sign-in sets first). *)
Lemma submit_rejected scr data inner :
  validate rEmail (schema_of scr) data = Thrown (ValidationError inner) ->
  trace (submit rEmail server true scr data) =
  (match scr with
   | SignInScreen => [SetErrors {[ "name" := Msg "Nome obrigatório" ]}]
   | _ => []
   end) ++ [Validate data; SetErrors (getValidationErrors (ValidationError inner))].
Proof.
  intros V. destruct scr; cbn [submit schema_of] in *.
  - by rewrite signin_trace, V.
  - by rewrite signup_trace, V.
  - by rewrite profile_trace, V.
Qed.

(** The trace of a submission that validation accepts. *)
Lemma submit_accepted scr fr data :
  validate rEmail (schema_of scr) data = Returned tt ->
  match request_of scr data with
  | Some r =>
      exists rest,
        trace (submit rEmail server fr scr data) = Validate data :: Http r :: rest
        /\ requests rest = 0
        /\ error_toasts rest = (match server r with Some _ => 0 | None => 1 end)
        /\ field_mappings rest = 0
  | None => requests (trace (submit rEmail server fr scr data)) = 0
  end.
Proof.
  intros V. destruct scr; cbn [submit schema_of request_of] in *.
  - apply signin_no_request.
  - rewrite signup_trace, V. cbn zeta. eexists. split; [reflexivity|].
    by destruct (server _).
  - rewrite profile_trace, V. cbn zeta. eexists. split; [reflexivity|].
    by destruct (server _).
Qed.

(** What the inner errors say about one path, read off the resolved rules. *)
Lemma inner_at sh data inner fs path :
  report rEmail sh data = Returned inner ->
  resolve_fields data sh = Returned fs ->
  map snd (List.filter (fun e => String.eqb (fst e) path) inner) =
  flat_map (fun f => check rEmail data (snd f) (get data (fst f)))
    (List.filter (fun f => String.eqb (fst f) path) fs).
Proof.
  intros R F. pose proof (errors_at_resolved rEmail sh data path fs F) as E.
  unfold errors_at in E. rewrite R in E. cbn [and_then] in E. congruence.
Qed.

End Submission.

(** C2, as the code has it.  For a submission that its screen's schema
    accepts: on sign-up and on profile edit the handler's first action is the
    validation, the next one is the request (POST /users with the data, PUT
    /profile with the form data), and no other request follows; on sign-in
    the handler issues no request. *)
Theorem accepted_submission_request
  (rEmail : string -> bool) (server : request -> option object)
  (formRef_current : bool) (scr : screen) (data : object) :
  validate rEmail (schema_of scr) data = Returned tt ->
  match request_of scr data with
  | Some r =>
      exists rest,
        trace (submit rEmail server formRef_current scr data)
          = Validate data :: Http r :: rest
        /\ requests rest = 0
  | None => requests (trace (submit rEmail server formRef_current scr data)) = 0
  end.
Proof.
  intros V. pose proof (submit_accepted rEmail server scr formRef_current data V) as H.
  destruct (request_of scr data); [|exact H].
  destruct H as (rest & -> & H & _). by exists rest.
Qed.

Lemma accepted_submission_request_witness :
  (exists rest,
     trace (submit sample_rEmail server_down true SignUpScreen signup_ok)
       = Validate signup_ok
         :: Http {| verb := POST; url := "/users"; body := Json signup_ok |} :: rest
     /\ requests rest = 0)
  /\
  (exists rest,
     trace (submit sample_rEmail server_up true ProfileScreen profile_ok)
       = Validate profile_ok
         :: Http {| verb := PUT; url := "/profile";
                    body := Json (Profile.formData profile_ok) |} :: rest
     /\ requests rest = 0).
Proof.
  split.
  - apply (accepted_submission_request sample_rEmail server_down true
             SignUpScreen signup_ok).
    vm_compute. reflexivity.
  - apply (accepted_submission_request sample_rEmail server_up true
             ProfileScreen profile_ok).
    vm_compute. reflexivity.
Defined.

(** C2 as stated fails on the sign-in screen: the accepted example data is
    validated and the handler stops there, no request follows. *)
Lemma signin_validation_is_last_action :
  validate sample_rEmail (schema_of SignInScreen) signin_ok = Returned tt
  /\ trace (submit sample_rEmail server_up true SignInScreen signin_ok)
     = [SetErrors {[ "name" := Msg "Nome obrigatório" ]}; Validate signin_ok]
  /\ ~ (exists pre r rest,
          trace (submit sample_rEmail server_up true SignInScreen signin_ok)
            = pre ++ Validate signin_ok :: Http r :: rest).
Proof.
  split; [vm_compute; reflexivity|].
  assert (T : trace (submit sample_rEmail server_up true SignInScreen signin_ok)
              = [SetErrors {[ "name" := Msg "Nome obrigatório" ]}; Validate signin_ok])
    by (vm_compute; reflexivity).
  split; [exact T|].
  rewrite T. intros (pre & r & rest & E).
  destruct pre as [|a [|b [|c pre]]]; cbn in E; discriminate.
Qed.

(* ===================================================================== *)
(** ** Required fields *)
(* ===================================================================== *)

Section RequiredFields.
Variable rEmail : string -> bool.
Variable server : request -> option object.
Implicit Types (data : object) (scr : screen).

(** The end of a rejected submission, seen from one field: when the rules
    of that field leave exactly [msg], the form shows [msg] there and no
    request has gone out. *)
Lemma rejected_field scr data fs path msg :
  resolve_fields data (schema_of scr) = Returned fs ->
  flat_map (fun f => check rEmail data (snd f) (get data (fst f)))
    (List.filter (fun f => String.eqb (fst f) path) fs) = [msg] ->
  requests (trace (submit rEmail server true scr data)) = 0 /\
  form_errors (trace (submit rEmail server true scr data)) !! path = Some msg.
Proof.
  intros F C.
  assert (R : report rEmail (schema_of scr) data
              = Returned (flat_map (field_errors rEmail data) fs))
    by (unfold report; by rewrite F).
  pose proof (inner_at rEmail _ _ _ _ path R F) as I. rewrite C in I.
  assert (V : validate rEmail (schema_of scr) data
              = Thrown (ValidationError (flat_map (field_errors rEmail data) fs))).
  { apply validate_thrown_validation; [exact R|].
    intros N. rewrite N in I. discriminate. }
  rewrite (submit_rejected rEmail server scr data _ V).
  split.
  - by destruct scr.
  - assert (E : forall pre e,
              form_errors (pre ++ [Validate data; SetErrors e]) = e).
    { intros pre e. unfold form_errors. by rewrite fold_left_app. }
    rewrite E, getValidationErrors_lookup, I. reflexivity.
Qed.

End RequiredFields.

(** C6. A submission that misses a required field (its key absent or its
    value empty) is rejected by validation before any HTTP request is issued,
    and the form shows that field's 'required' message on it: the handler's
    whole trace holds no request, and the field's entry in the form errors is
    the message of its [required] rule.  On the profile screen the password
    field holds a string, as the form delivers it. *)
Theorem missing_required_field_rejected
  (rEmail : string -> bool) (server : request -> option object)
  (scr : screen) (data : object) (field : string) (s : schema) (msg : string) :
  In (field, s) (schema_of scr) ->
  required_message s = Some msg ->
  missing (get data field) ->
  (scr = ProfileScreen -> exists p, get data "password" = str p) ->
  requests (trace (submit rEmail server true scr data)) = 0 /\
  form_errors (trace (submit rEmail server true scr data)) !! field = Some (Msg msg).
Proof.
  intros Hin Hreq Hmiss Hpw.
  destruct scr; cbn [schema_of] in Hin.
  - unfold SignIn.schema in Hin.
    destruct Hin as [[= <- <-] | [[= <- <-] | []]]; injection Hreq as <-;
      apply (rejected_field rEmail server SignInScreen data _ _ _ (resolve_signin data));
      cbn; destruct Hmiss as [-> | ->]; reflexivity.
  - unfold SignUp.schema in Hin.
    destruct Hin as [[= <- <-] | [[= <- <-] | [[= <- <-] | []]]];
      [injection Hreq as <- .. | discriminate];
      apply (rejected_field rEmail server SignUpScreen data _ _ _ (resolve_signup data));
      cbn; destruct Hmiss as [-> | ->]; reflexivity.
  - destruct (Hpw eq_refl) as [p Hp]. unfold Profile.schema in Hin.
    destruct Hin as [[= <- <-] | [[= <- <-] | [[= <- <-] | [[= <- <-] | [[= <- <-] | []]]]]];
      try discriminate; injection Hreq as <-;
      apply (rejected_field rEmail server ProfileScreen data _ _ _
               (resolve_profile data p Hp));
      cbn; destruct Hmiss as [-> | ->]; reflexivity.
Qed.

Lemma missing_required_field_rejected_witness :
  requests (trace (submit sample_rEmail server_up true SignUpScreen signup_no_name)) = 0
  /\ form_errors (trace (submit sample_rEmail server_up true SignUpScreen signup_no_name))
       !! "name" = Some (Msg "Nome Obrigatório").
Proof.
  apply (missing_required_field_rejected sample_rEmail server_up SignUpScreen
           signup_no_name "name" (string_ |> required "Nome Obrigatório")
           "Nome Obrigatório").
  - left. reflexivity.
  - reflexivity.
  - right. vm_compute. reflexivity.
  - discriminate.
Defined.

(* ===================================================================== *)
(** ** Failures *)
(* ===================================================================== *)

Section Failures.
Variable rEmail : string -> bool.
Variable server : request -> option object.
Implicit Types (data : object) (scr : screen).

(** How the [try] block of the two screens that send a request can fail:
    validation throws, or the request is refused. *)
Lemma try_block_failure scr data e :
  scr <> SignInScreen ->
  result (try_block rEmail server true scr data) = Thrown e ->
  (validate rEmail (schema_of scr) data = Thrown e /\
   trace (try_block rEmail server true scr data) = [Validate data])
  \/
  (validate rEmail (schema_of scr) data = Returned tt /\ e = RequestError /\
   exists r, request_of scr data = Some r /\ server r = None /\
             trace (try_block rEmail server true scr data) = [Validate data; Http r]).
Proof.
  intros Hscr. destruct scr; [congruence | |];
    cbn [try_block schema_of request_of];
    unfold SignUp.submission, Profile.submission, schema_validate, api.
  - destruct (validate rEmail SignUp.schema data) as [[]|e'] eqn:V; cbn.
    + destruct (server _) eqn:S; cbn; [discriminate|].
      intros [= <-]. right. do 2 (split; [reflexivity|]). eexists. eauto.
    + intros [= <-]. by left.
  - destruct (validate rEmail Profile.schema data) as [[]|e'] eqn:V; cbn.
    + destruct (server _) eqn:S; cbn; [discriminate|].
      intros [= <-]. right. do 2 (split; [reflexivity|]). eexists. eauto.
    + intros [= <-]. by left.
Qed.

Lemma submit_after_failure scr data e :
  result (try_block rEmail server true scr data) = Thrown e ->
  trace (submit rEmail server true scr data) =
  trace (try_block rEmail server true scr data) ++
  [if match scr with SignInScreen => true | _ => instanceof_ValidationError e end
   then SetErrors (getValidationErrors e)
   else AddToast (generic_toast scr)].
Proof.
  intros R. destruct scr; cbn [submit try_block] in *;
    unfold SignIn.handleSubmit, SignUp.handleSubmit, Profile.handleSubmit, try_catch;
    rewrite R; cbn [trace]; f_equal;
    unfold SignUp.recover, Profile.recover; by destruct e.
Qed.

End Failures.

(** C7, as the code has it.  When the [try] block of a form submission
    (sign-in, sign-up or profile edit, on a mounted form) fails, exactly one
    of two things ends the handler.  A validation error is mapped onto the
    form fields by name: the last action is [setErrors] with the field map of
    the error, the form shows that map, and no notification is shown.  Any
    other failure shows the screen's generic error notification, once, and
    touches no field.  (The avatar handler is a different matter: it gives
    its request no failure handler.) *)
Theorem submission_failure_outcomes
  (rEmail : string -> bool) (server : request -> option object)
  (scr : screen) (data : object) (e : exn message) :
  result (try_block rEmail server true scr data) = Thrown e ->
  let tr := trace (submit rEmail server true scr data) in
  if instanceof_ValidationError e
  then last tr = Some (SetErrors (getValidationErrors e))
       /\ form_errors tr = getValidationErrors e
       /\ toasts tr = 0
  else last tr = Some (AddToast (generic_toast scr))
       /\ type (generic_toast scr) = error
       /\ error_toasts tr = 1
       /\ field_mappings tr = 0.
Proof.
  intros R tr. unfold tr. rewrite (submit_after_failure rEmail server scr data e R).
  destruct scr.
  - destruct (signin_only_validation_fails rEmail true data e R) as (inner & -> & _ & V).
    cbn [instanceof_ValidationError try_block]. rewrite last_snoc.
    split; [reflexivity|]. split.
    + unfold form_errors. by rewrite fold_left_app.
    + unfold toasts. rewrite count_app. cbn.
      unfold SignIn.submission, schema_validate, formRef_setErrors.
      by destruct (validate rEmail SignIn.schema data) as [[]|?].
  - destruct (try_block_failure rEmail server SignUpScreen data e ltac:(discriminate) R)
      as [[V T] | (V & -> & r & _ & _ & T)]; rewrite T.
    + destruct e; cbn; repeat split; reflexivity.
    + cbn. repeat split; reflexivity.
  - destruct (try_block_failure rEmail server ProfileScreen data e ltac:(discriminate) R)
      as [[V T] | (V & -> & r & _ & _ & T)]; rewrite T.
    + destruct e; cbn; repeat split; reflexivity.
    + cbn. repeat split; reflexivity.
Qed.

Lemma submission_failure_outcomes_witness :
  (last (trace (submit sample_rEmail server_down true SignUpScreen signup_ok))
     = Some (AddToast SignUp.failure_toast)
   /\ type (generic_toast SignUpScreen) = error
   /\ error_toasts (trace (submit sample_rEmail server_down true SignUpScreen signup_ok)) = 1
   /\ field_mappings (trace (submit sample_rEmail server_down true SignUpScreen signup_ok)) = 0)
  /\
  (last (trace (submit sample_rEmail server_down true SignUpScreen signup_no_name))
     = Some (SetErrors {[ "name" := Msg "Nome Obrigatório" ]})
   /\ form_errors (trace (submit sample_rEmail server_down true SignUpScreen signup_no_name))
      = {[ "name" := Msg "Nome Obrigatório" ]}
   /\ toasts (trace (submit sample_rEmail server_down true SignUpScreen signup_no_name)) = 0).
Proof.
  split.
  - apply (submission_failure_outcomes sample_rEmail server_down SignUpScreen
             signup_ok RequestError).
    vm_compute. reflexivity.
  - apply (submission_failure_outcomes sample_rEmail server_down SignUpScreen
             signup_no_name
             (ValidationError [("name", Msg "Nome Obrigatório")])).
    vm_compute. reflexivity.
Defined.

(** C7 as stated fails on the avatar update: when the request is refused the
    handler has sent it and does nothing more, neither a notification nor a
    field error. *)
Lemma avatar_failure_shows_nothing :
  server_down {| verb := PATCH; url := "/users/avatar";
                 body := Multipart [("avatar", Some "me.png")] |} = None
  /\ trace (Profile.handleAvatarChange server_down (Some ["me.png"]))
     = [Http {| verb := PATCH; url := "/users/avatar";
                body := Multipart [("avatar", Some "me.png")] |}]
  /\ error_toasts (trace (Profile.handleAvatarChange server_down (Some ["me.png"]))) = 0
  /\ field_mappings (trace (Profile.handleAvatarChange server_down (Some ["me.png"]))) = 0.
Proof. repeat split; reflexivity. Qed.

(* ===================================================================== *)
(** ** Facts about the toast timer *)
(* ===================================================================== *)


Section ToastOperations.
Implicit Types (s : state) (t : timer) (i j h : nat).

Lemma cleanups_cons i j h (l : list (nat * nat)) s :
  cleanups i ((j, h) :: l) s = cleanups i l (if decide (j = i) then cleanup h s else s).
Proof. reflexivity. Qed.

Lemma cleanups_frame i (l : list (nat * nat)) s :
  now (cleanups i l s) = now s /\ messages (cleanups i l s) = messages s /\
  mounted (cleanups i l s) = mounted s /\
  next_handle (cleanups i l s) = next_handle s /\
  next_id (cleanups i l s) = next_id s /\ log (cleanups i l s) = log s.
Proof.
  revert s. induction l as [|[j h] l IH]; intros s; [done|].
  rewrite cleanups_cons.
  destruct (decide (j = i)); [|apply IH].
  destruct (IH (cleanup h s)) as (-> & -> & -> & -> & -> & ->). done.
Qed.

(** The cleanups clear exactly the timers of the components they run for. *)
Lemma cleanups_timers i (l : list (nat * nat)) s t :
  t ∈ timers (cleanups i l s) <-> t ∈ timers s /\ (i, handle t) ∉ l.
Proof.
  revert s. induction l as [|[j h] l IH]; intros s.
  - cbn. rewrite elem_of_nil. tauto.
  - rewrite cleanups_cons, not_elem_of_cons, IH.
    destruct (decide (j = i)) as [->|Hne].
    + unfold cleanup, clearTimeout. cbn [timers set_timers].
      rewrite list_elem_of_filter. split.
      * intros [[H1 H2] H3]. repeat split; try done. congruence.
      * intros (H1 & H2 & H3). repeat split; try done. congruence.
    + split.
      * intros [H1 H2]. repeat split; try done. congruence.
      * tauto.
Qed.

Lemma unmount_spec i s :
  now (unmount i s) = now s /\
  messages (unmount i s) = messages s /\
  next_handle (unmount i s) = next_handle s /\
  next_id (unmount i s) = next_id s /\
  log (unmount i s) = log s /\
  mounted (unmount i s) = filter (fun c => c.1 <> i) (mounted s) /\
  (forall t, t ∈ timers (unmount i s) <-> t ∈ timers s /\ (i, handle t) ∉ mounted s).
Proof.
  unfold unmount. cbn [now messages next_handle next_id log mounted timers set_mounted].
  destruct (cleanups_frame i (mounted s) s) as (-> & -> & -> & -> & -> & ->).
  split_and!; try done. intros t. apply cleanups_timers.
Qed.

Lemma call_removeToast_spec o i s :
  let s' := call_removeToast o i s in
  now s' = now s /\
  next_handle s' = next_handle s /\
  next_id s' = next_id s /\
  log s' = log s ++ [{| caller := o; removed := i; present := bool_decide (i ∈ ids s) |}] /\
  messages s' = filter (fun m => id m <> i) (messages s) /\
  mounted s' = filter (fun c => c.1 <> i) (mounted s) /\
  (forall t, t ∈ timers s' <-> t ∈ timers s /\ (i, handle t) ∉ mounted s).
Proof.
  cbn zeta. unfold call_removeToast, removeToast.
  destruct (unmount_spec i
    (set_messages (filter (fun m => id m <> i))
       (set_log (fun l => l ++ [{| caller := o; removed := i;
                                   present := bool_decide (i ∈ ids s) |}]) s)))
    as (-> & -> & -> & -> & -> & -> & Ht).
  split_and!; try done.
Qed.

Lemma addToast_eq c s :
  addToast c s =
  {| now := now s;
     messages := messages s ++ [{| id := next_id s; content := c |}];
     mounted := mounted s ++ [(next_id s, next_handle s)];
     timers := timers s ++ [{| handle := next_handle s; due := now s + delay;
                               target := next_id s |}];
     next_handle := S (next_handle s);
     next_id := S (next_id s);
     log := log s |}.
Proof. reflexivity. Qed.

Lemma ids_filter i j s :
  i ∈ id <$> filter (fun m => id m <> j) (messages s) <-> i ∈ ids s /\ i <> j.
Proof.
  unfold ids. rewrite !list_elem_of_fmap. split.
  - intros (m & -> & [H1 H2]%list_elem_of_filter). eauto.
  - intros [(m & -> & H1) H2]. exists m. by rewrite list_elem_of_filter.
Qed.

Lemma timer_removals_snoc i s' s r :
  log s' = log s ++ [r] ->
  timer_removals i s' =
  timer_removals i s + (if decide (caller r = ByTimer /\ removed r = i) then 1 else 0).
Proof.
  intros E. unfold timer_removals. rewrite E, filter_app, length_app.
  f_equal. rewrite filter_cons. by case_decide.
Qed.

Lemma timer_removals_same i s' s :
  log s' = log s -> timer_removals i s' = timer_removals i s.
Proof. unfold timer_removals. by intros ->. Qed.

Lemma timer_removals_none i s :
  (forall r, r ∈ log s -> removed r <> i) -> timer_removals i s = 0.
Proof.
  unfold timer_removals. induction (log s) as [|r l IH]; intros H; [done|].
  rewrite filter_cons. destruct (decide _) as [[_ E]|].
  - exfalso. apply (H r); [by left | done].
  - apply IH. intros r' Hr'. apply H. by right.
Qed.

End ToastOperations.

Section ToastInvariants.
Implicit Types (s : state) (t : timer) (i j h d n : nat).

Lemma fires_invariant (P : state -> Prop) (l : list timer) s :
  (forall t s', P s' -> P (fire t s')) -> P s ->
  P (fold_left (fun s'' t => fire t s'') l s).
Proof.
  intros HP. revert s. induction l as [|t l IH]; intros s Hs; [done|].
  cbn [fold_left]. apply IH, HP, Hs.
Qed.

Lemma step_invariant (P : state -> Prop) :
  (forall c s, P s -> P (addToast c s)) ->
  (forall i s, P s -> P (click i s)) ->
  (forall i s, P s -> P (unmount i s)) ->
  (forall s, P s -> P (tick s)) ->
  forall evs s, P s -> P (run s evs).
Proof.
  intros Ha Hc Hu Ht evs. induction evs as [|ev evs IH]; intros s Hs; [done|].
  cbn [run fold_left]. apply IH. destruct ev; cbn [step]; auto.
Qed.

Lemma elem_of_mounted_fst i s :
  i ∈ (mounted s).*1 <-> exists h, (i, h) ∈ mounted s.
Proof.
  rewrite list_elem_of_fmap. split.
  - intros ([j h] & -> & H). by exists h.
  - intros [h H]. by exists (i, h).
Qed.

(** **** [Quiet] *)

Lemma Quiet_addToast i n c s : Quiet i n s -> Quiet i n (addToast c s).
Proof.
  intros (H1 & H2 & H3 & H4). rewrite addToast_eq. unfold Quiet, timer_removals.
  cbn [next_id timers mounted log]. split_and!.
  - lia.
  - intros t [Ht | ->%list_elem_of_singleton]%elem_of_app; [by apply H2|].
    cbn. lia.
  - intros h [Hh | [= -> _]%list_elem_of_singleton]%elem_of_app; [by apply (H3 h)|].
    lia.
  - exact H4.
Qed.

Lemma Quiet_unmount i n j s : Quiet i n s -> Quiet i n (unmount j s).
Proof.
  intros (H1 & H2 & H3 & H4).
  destruct (unmount_spec j s) as (_ & _ & _ & E1 & E2 & E3 & E4).
  unfold Quiet. rewrite E1, E3, (timer_removals_same i _ s E2). split_and!; try done.
  - intros t [Ht _]%E4. by apply H2.
  - intros h [_ Hh]%list_elem_of_filter. by apply (H3 h).
Qed.

Lemma Quiet_call i n o j s :
  Quiet i n s -> (o = ByTimer -> j <> i) -> Quiet i n (call_removeToast o j s).
Proof.
  intros (H1 & H2 & H3 & H4) Ho.
  destruct (call_removeToast_spec o j s) as (_ & _ & E1 & E2 & _ & E3 & E4).
  unfold Quiet. rewrite E1, E3, (timer_removals_snoc i _ s _ E2). split_and!; try done.
  - intros t [Ht _]%E4. by apply H2.
  - intros h [_ Hh]%list_elem_of_filter. by apply (H3 h).
  - cbn [caller removed].
    destruct (decide (o = ByTimer /\ j = i)) as [[-> ->]|]; [by destruct Ho | lia].
Qed.

Lemma Quiet_fire i n t s : Quiet i n s -> Quiet i n (fire t s).
Proof.
  intros Q. unfold fire. case_decide as Hin; [|done].
  apply Quiet_call.
  - destruct Q as (H1 & H2 & H3 & H4). unfold Quiet, timer_removals.
    cbn [next_id timers mounted log set_timers]. split_and!; try done.
    intros t' [_ Ht']%list_elem_of_filter. by apply H2.
  - intros _. destruct Q as (_ & H2 & _). by apply H2.
Qed.

Lemma Quiet_tick i n s : Quiet i n s -> Quiet i n (tick s).
Proof.
  intros Q. unfold tick. apply fires_invariant; [intros; by apply Quiet_fire|].
  exact Q.
Qed.

Lemma Quiet_click i n j s : Quiet i n s -> Quiet i n (click j s).
Proof.
  intros Q. unfold click. case_decide; [|done]. by apply Quiet_call.
Qed.

Lemma Quiet_run i n evs s : Quiet i n s -> Quiet i n (run s evs).
Proof.
  apply (step_invariant (Quiet i n)); intros.
  - by apply Quiet_addToast.
  - by apply Quiet_click.
  - by apply Quiet_unmount.
  - by apply Quiet_tick.
Qed.

(** A toast that is off the list and quiet stays off the list. *)
Lemma Gone_run i n evs s : Gone i n s -> Gone i n (run s evs).
Proof.
  apply (step_invariant (Gone i n)).
  - intros c s' [Q G]. split; [by apply Quiet_addToast|].
    rewrite addToast_eq. unfold ids. cbn [messages]. rewrite fmap_app.
    intros [H | ->%list_elem_of_singleton]%elem_of_app; [by apply G|].
    destruct Q as [Q _]. cbn [id] in Q. lia.
  - intros j s' [Q G]. split; [by apply Quiet_click|].
    unfold click. case_decide; [|done].
    destruct (call_removeToast_spec ByClick j s') as (_ & _ & _ & _ & E & _).
    unfold ids. rewrite E. intros [Hi _]%ids_filter. by apply G.
  - intros j s' [Q G]. split; [by apply Quiet_unmount|].
    destruct (unmount_spec j s') as (_ & E & _). unfold ids. by rewrite E.
  - intros s' [Q G]. split; [by apply Quiet_tick|].
    unfold tick. apply (fires_invariant (fun s'' => i ∉ ids s'')); [|done].
    intros t s'' G'. unfold fire. case_decide as Hin; [|done].
    match goal with |- _ ∉ ids (call_removeToast ?o ?j ?s0) =>
      destruct (call_removeToast_spec o j s0) as (_ & _ & _ & _ & E & _) end.
    unfold ids. rewrite E. intros [H' _]%ids_filter. by apply G'.
Qed.

End ToastInvariants.

Section ToastCountdown.
Implicit Types (s : state) (t : timer) (i j h d n : nat).

Lemma fires_invariant_in (P : state -> Prop) (l : list timer) s :
  (forall t s', t ∈ l -> P s' -> P (fire t s')) -> P s ->
  P (fold_left (fun s'' t => fire t s'') l s).
Proof.
  revert s. induction l as [|t l IH]; intros s HP Hs; [done|].
  cbn [fold_left]. apply IH.
  - intros t' s' Ht'. apply HP. by right.
  - apply HP; [by left | done].
Qed.

Lemma Gone_fire i n t s : Gone i n s -> Gone i n (fire t s).
Proof.
  intros [Q G]. split; [by apply Quiet_fire|].
  unfold fire. case_decide as Hin; [|done].
  match goal with |- _ ∉ ids (call_removeToast ?o ?j ?s0) =>
    destruct (call_removeToast_spec o j s0) as (_ & _ & _ & _ & E & _) end.
  unfold ids. rewrite E. intros [H' _]%ids_filter. by apply G.
Qed.

(** **** [Live] *)

Lemma Live_addToast i h d c s : Live i h d s -> Live i h d (addToast c s).
Proof.
  intros (L1 & L2 & L3 & L4 & L5 & L6 & L7 & L8). rewrite addToast_eq.
  unfold Live, ids, timer_removals. cbn [messages mounted timers next_id next_handle log].
  split_and!; try done; try lia.
  - rewrite fmap_app, elem_of_app. by left.
  - rewrite elem_of_app. by left.
  - intros j h' [H | [= -> ->]%list_elem_of_singleton]%elem_of_app; [by apply L3|].
    split; lia.
  - rewrite elem_of_app. by left.
  - intros t [H | ->%list_elem_of_singleton]%elem_of_app; [by apply L5|].
    cbn [target handle]. lia.
Qed.

(** Removing from the list, the screen and the timers what does not concern
    [i] keeps it live. *)
Lemma Live_shrink i h d s s' :
  Live i h d s ->
  (forall j, j ∈ ids s -> j = i -> j ∈ ids s') ->
  (forall c, c ∈ mounted s' -> c ∈ mounted s) ->
  (i, h) ∈ mounted s' ->
  (forall t, t ∈ timers s' -> t ∈ timers s) ->
  {| handle := h; due := d; target := i |} ∈ timers s' ->
  next_id s' = next_id s -> next_handle s' = next_handle s ->
  timer_removals i s' = timer_removals i s ->
  Live i h d s'.
Proof.
  intros (L1 & L2 & L3 & L4 & L5 & L6 & L7 & L8) M1 M2 M3 M4 M5 E1 E2 E3.
  unfold Live. rewrite E1, E2, E3. split_and!; try done.
  - by apply M1.
  - intros j h' H. by apply L3, M2.
  - intros t H. by apply L5, M4.
Qed.

Lemma Live_unmount i h d j s : j <> i -> Live i h d s -> Live i h d (unmount j s).
Proof.
  intros Hj L. pose proof L as (L1 & L2 & L3 & L4 & L5 & L6 & L7 & L8).
  destruct (unmount_spec j s) as (_ & E0 & E1 & E2 & E3 & E4 & E5).
  apply (Live_shrink i h d s); try done.
  - intros j' H _. unfold ids. by rewrite E0.
  - intros c. rewrite E4. by intros [_ H]%list_elem_of_filter.
  - rewrite E4. apply list_elem_of_filter. split; [cbn; congruence | done].
  - intros t H. by apply E5 in H as [H _].
  - apply E5. split; [done|]. cbn [handle]. intros H. apply L3 in H.
    apply Hj. by apply H.
  - by apply timer_removals_same.
Qed.

Lemma Live_call i h d o j s :
  j <> i -> Live i h d s -> Live i h d (call_removeToast o j s).
Proof.
  intros Hj L. pose proof L as (L1 & L2 & L3 & L4 & L5 & L6 & L7 & L8).
  destruct (call_removeToast_spec o j s) as (_ & E1 & E2 & E3 & E0 & E4 & E5).
  apply (Live_shrink i h d s); try done.
  - intros j' H ->. unfold ids. rewrite E0. by apply ids_filter.
  - intros c. rewrite E4. by intros [_ H]%list_elem_of_filter.
  - rewrite E4. apply list_elem_of_filter. split; [cbn; congruence | done].
  - intros t H. by apply E5 in H as [H _].
  - apply E5. split; [done|]. cbn [handle]. intros H. apply L3 in H.
    apply Hj. by apply H.
  - rewrite (timer_removals_snoc i _ s _ E3). cbn [caller removed].
    destruct (decide (o = ByTimer /\ j = i)) as [[_ ?]|]; [done | lia].
Qed.

Lemma Live_click i h d j s : j <> i -> Live i h d s -> Live i h d (click j s).
Proof. intros Hj L. unfold click. case_decide; [by apply Live_call | done]. Qed.

Lemma Live_fire i h d t s :
  t <> {| handle := h; due := d; target := i |} ->
  Live i h d s -> Live i h d (fire t s).
Proof.
  intros Ht L. unfold fire. case_decide as Hin; [|done].
  pose proof L as (L1 & L2 & L3 & L4 & L5 & L6 & L7 & L8).
  assert (target t <> i /\ handle t <> h) as [Hi Hh].
  { split; intros E; apply Ht, L5; auto. }
  apply Live_call; [done|].
  apply (Live_shrink i h d s); try done.
  - cbn [timers set_timers]. intros t'. by intros [_ H]%list_elem_of_filter.
  - cbn [timers set_timers]. apply list_elem_of_filter. split; [cbn; congruence | done].
Qed.

Lemma now_fires (l : list timer) s :
  now (fold_left (fun s'' t => fire t s'') l s) = now s.
Proof.
  apply (fires_invariant (fun s' => now s' = now s)); [|done].
  intros t s' E. unfold fire. case_decide; [|done].
  match goal with |- now (call_removeToast ?o ?j ?s0) = _ =>
    destruct (call_removeToast_spec o j s0) as (-> & _) end.
  exact E.
Qed.

Lemma now_tick s : now (tick s) = S (now s).
Proof. unfold tick. by rewrite now_fires. Qed.

Lemma now_step s ev : now (step s ev) = now s + (if is_tick ev then 1 else 0).
Proof.
  destruct ev; cbn [step is_tick].
  - rewrite addToast_eq. cbn. lia.
  - unfold click. case_decide; [|lia].
    destruct (call_removeToast_spec ByClick toast_id s) as (-> & _). lia.
  - destruct (unmount_spec toast_id s) as (-> & _). lia.
  - rewrite now_tick. lia.
Qed.

(** Before the due time a tick fires only other timers. *)
Lemma Live_tick i h d s : S (now s) < d -> Live i h d s -> Live i h d (tick s).
Proof.
  intros Hd L. unfold tick. apply fires_invariant_in; [|done].
  intros t s' [Hdue _]%list_elem_of_filter L'. apply Live_fire; [|done].
  intros ->. cbn [due now set_now] in Hdue. lia.
Qed.

(** The callback of the toast's own timer removes it. *)
Lemma Live_fire_own i h d s :
  Live i h d s -> Gone i 1 (fire {| handle := h; due := d; target := i |} s).
Proof.
  intros (L1 & L2 & L3 & L4 & L5 & L6 & L7 & L8). unfold fire.
  rewrite decide_True by done. cbn [target handle].
  match goal with |- Gone _ _ (call_removeToast ?o ?j ?s0) =>
    destruct (call_removeToast_spec o j s0) as (_ & _ & E1 & E2 & E0 & E3 & E4) end.
  cbn [next_id mounted messages log timers set_timers] in *.
  split; [unfold Quiet; split_and!|].
  - by rewrite E1.
  - intros t [[Hh Ht]%list_elem_of_filter _]%E4 E. apply Hh.
    by rewrite (L5 t Ht (or_introl E)).
  - intros h'. rewrite E3. intros [H _]%list_elem_of_filter. by apply H.
  - erewrite timer_removals_snoc by exact E2. cbn [caller removed].
    rewrite decide_True by done. unfold timer_removals in *. cbn [log set_timers].
    rewrite L8. done.
  - unfold ids. rewrite E0. intros [_ H]%ids_filter. by apply H.
Qed.

(** At the due time the tick fires the toast's timer. *)
Lemma Live_tick_due i h d s : S (now s) = d -> Live i h d s -> Gone i 1 (tick s).
Proof.
  intros Hd L. unfold tick.
  set (own := {| handle := h; due := d; target := i |}).
  set (l := filter (fun t => due t <= now (set_now S s)) (timers (set_now S s))).
  assert (Hown : own ∈ l).
  { apply list_elem_of_filter. split; [cbn; lia|]. apply L. }
  apply list_elem_of_split_l in Hown as (l1 & l2 & -> & Hl1).
  rewrite fold_left_app. cbn [fold_left].
  apply (fires_invariant (Gone i 1)); [intros; by apply Gone_fire|].
  apply Live_fire_own.
  apply fires_invariant_in; [|done].
  intros t s' Ht L'. apply Live_fire; [|done]. intros ->. done.
Qed.

(** Dismissing the toast by hand removes it and clears its timer. *)
Lemma Live_click_own i h d s : Live i h d s -> Gone i 0 (click i s).
Proof.
  intros (L1 & L2 & L3 & L4 & L5 & L6 & L7 & L8). unfold click.
  rewrite decide_True by (apply elem_of_mounted_fst; eauto).
  destruct (call_removeToast_spec ByClick i s) as (_ & _ & E1 & E2 & E0 & E3 & E4).
  split; [unfold Quiet; split_and!|].
  - by rewrite E1.
  - intros t [Ht Hm]%E4 E. apply Hm.
    by rewrite (L5 t Ht (or_introl E)).
  - intros h'. rewrite E3. intros [H _]%list_elem_of_filter. by apply H.
  - erewrite timer_removals_snoc by exact E2. cbn [caller removed].
    rewrite decide_False by (intros [? _]; discriminate). lia.
  - unfold ids. rewrite E0. intros [_ H]%ids_filter. by apply H.
Qed.

(** Tearing the component down clears its timer; the message stays. *)
Lemma Live_unmount_own i h d s : Live i h d s -> Quiet i 0 (unmount i s).
Proof.
  intros (L1 & L2 & L3 & L4 & L5 & L6 & L7 & L8).
  destruct (unmount_spec i s) as (_ & _ & _ & E1 & E2 & E3 & E4).
  unfold Quiet; split_and!.
  - by rewrite E1.
  - intros t [Ht Hm]%E4 E. apply Hm.
    by rewrite (L5 t Ht (or_introl E)).
  - intros h'. rewrite E3. intros [H _]%list_elem_of_filter. by apply H.
  - by rewrite (timer_removals_same i _ s E2).
Qed.

Lemma Live_step i h d ev s :
  leaves_alone i ev = true -> now s + (if is_tick ev then 1 else 0) < d ->
  Live i h d s -> Live i h d (step s ev).
Proof.
  intros Hev Hd L. destruct ev; cbn [step is_tick leaves_alone] in *.
  - by apply Live_addToast.
  - apply Live_click; [|done]. by apply negb_true_iff, Nat.eqb_neq in Hev.
  - apply Live_unmount; [|done]. by apply negb_true_iff, Nat.eqb_neq in Hev.
  - apply Live_tick; [lia | done].
Qed.

(** While fewer than [d - now] milliseconds have passed and nobody touches
    the toast, it stays live. *)
Lemma Live_run i h d evs s :
  untouched i evs = true -> now s + elapsed evs < d ->
  Live i h d s -> Live i h d (run s evs).
Proof.
  revert s. induction evs as [|ev evs IH]; intros s Hu Hd L; [done|].
  cbn [untouched forallb] in Hu. apply andb_true_iff in Hu as [Hev Hu].
  assert (He : elapsed (ev :: evs) = (if is_tick ev then 1 else 0) + elapsed evs)
    by (unfold elapsed; cbn [List.filter]; by destruct (is_tick ev)).
  rewrite He in Hd. cbn [run fold_left]. apply IH; [done| |].
  - rewrite now_step. lia.
  - apply Live_step; [done | lia | done].
Qed.

(** Once [d - now] milliseconds have passed the timer has removed it. *)
Lemma Live_expires i h d evs s :
  untouched i evs = true -> now s < d -> d <= now s + elapsed evs ->
  Live i h d s -> Gone i 1 (run s evs).
Proof.
  revert s. induction evs as [|ev evs IH]; intros s Hu Hn Hd L.
  - cbn in Hd. lia.
  - cbn [untouched forallb] in Hu. apply andb_true_iff in Hu as [Hev Hu].
    assert (He : elapsed (ev :: evs) = (if is_tick ev then 1 else 0) + elapsed evs)
      by (unfold elapsed; cbn [List.filter]; by destruct (is_tick ev)).
    rewrite He in Hd. cbn [run fold_left].
    destruct (decide (now s + (if is_tick ev then 1 else 0) < d)) as [Hlt|Hge].
    + apply IH; [done | by rewrite now_step | rewrite now_step; lia |].
      by apply Live_step.
    + destruct ev; cbn [is_tick] in Hge; try lia.
      apply Gone_run. cbn [step]. apply (Live_tick_due i h d); [lia | done].
Qed.

End ToastCountdown.

Section ToastReachable.
Implicit Types (s : state) (t : timer) (i j h d n : nat).

(** **** [Fresh] *)

Lemma Fresh_call o j s : j < next_id s -> Fresh s -> Fresh (call_removeToast o j s).
Proof.
  intros Hj (F1 & F2 & F3 & F4).
  destruct (call_removeToast_spec o j s) as (_ & E1 & E2 & E3 & E0 & E4 & E5).
  unfold Fresh. rewrite E1, E2, E3, E0, E4. split_and!.
  - intros m [_ H]%list_elem_of_filter. by apply F1.
  - intros j' h' [_ H]%list_elem_of_filter. by apply F2.
  - intros t [H _]%E5. by apply F3.
  - intros r [H | ->%list_elem_of_singleton]%elem_of_app; [by apply F4 | done].
Qed.

Lemma Fresh_unmount j s : Fresh s -> Fresh (unmount j s).
Proof.
  intros (F1 & F2 & F3 & F4).
  destruct (unmount_spec j s) as (_ & E0 & E1 & E2 & E3 & E4 & E5).
  unfold Fresh. rewrite E0, E1, E2, E3, E4. split_and!; try done.
  - intros j' h' [_ H]%list_elem_of_filter. by apply F2.
  - intros t [H _]%E5. by apply F3.
Qed.

Lemma Fresh_fire t s : Fresh s -> Fresh (fire t s).
Proof.
  intros F. unfold fire. case_decide as Hin; [|done].
  pose proof F as (F1 & F2 & F3 & F4). apply Fresh_call.
  - by apply F3.
  - unfold Fresh. cbn [messages mounted timers next_id next_handle log set_timers].
    split_and!; try done. intros t' [_ H]%list_elem_of_filter. by apply F3.
Qed.

Lemma Fresh_step s ev : Fresh s -> Fresh (step s ev).
Proof.
  intros F. pose proof F as (F1 & F2 & F3 & F4). destruct ev; cbn [step].
  - rewrite addToast_eq. unfold Fresh.
    cbn [messages mounted timers next_id next_handle log]. split_and!.
    + intros m [H%F1 | ->%list_elem_of_singleton]%elem_of_app; cbn [id]; lia.
    + intros j h [H%F2 | [= -> ->]%list_elem_of_singleton]%elem_of_app; lia.
    + intros t [H%F3 | ->%list_elem_of_singleton]%elem_of_app; cbn [target handle]; lia.
    + intros r H%F4. lia.
  - unfold click. case_decide as Hin; [|done]. apply Fresh_call; [|done].
    apply elem_of_mounted_fst in Hin as [h H]. by destruct (F2 _ _ H).
  - by apply Fresh_unmount.
  - unfold tick. apply fires_invariant; [intros; by apply Fresh_fire | done].
Qed.

(** A toast just added is live, with its timer due [delay] from now. *)
Lemma Live_added c s :
  Fresh s -> Live (next_id s) (next_handle s) (now s + delay) (addToast c s).
Proof.
  intros (F1 & F2 & F3 & F4). rewrite addToast_eq.
  unfold Live, ids, timer_removals. cbn [messages mounted timers next_id next_handle log].
  split_and!; try lia.
  - rewrite fmap_app, elem_of_app. right. by apply list_elem_of_singleton.
  - rewrite elem_of_app. right. by apply list_elem_of_singleton.
  - intros j h [H%F2 | [= -> ->]%list_elem_of_singleton]%elem_of_app; [lia | done].
  - rewrite elem_of_app. right. by apply list_elem_of_singleton.
  - intros t [H%F3 | ->%list_elem_of_singleton]%elem_of_app; [lia | done].
  - apply (timer_removals_none (next_id s) s). intros r H%F4. lia.
Qed.

(** **** [Sound] *)

Lemma Sound_call o j s : j ∈ ids s -> Sound s -> Sound (call_removeToast o j s).
Proof.
  intros Hj (S1 & S2 & S3).
  destruct (call_removeToast_spec o j s) as (_ & _ & _ & E3 & E0 & E4 & E5).
  unfold Sound, ids. rewrite E3, E0, E4. split_and!.
  - intros t [H Hm]%E5. apply list_elem_of_filter. split; [|by apply S1].
    cbn [fst]. intros E. apply Hm. rewrite <- E. by apply S1.
  - intros j' h' [Hne H]%list_elem_of_filter. apply ids_filter.
    split; [by eapply S2 | done].
  - intros r [H | ->%list_elem_of_singleton]%elem_of_app; [by apply S3|].
    cbn [present]. by apply bool_decide_eq_true.
Qed.

Lemma Sound_unmount j s : Sound s -> Sound (unmount j s).
Proof.
  intros (S1 & S2 & S3).
  destruct (unmount_spec j s) as (_ & E0 & _ & _ & E3 & E4 & E5).
  unfold Sound, ids. rewrite E0, E3, E4. split_and!; try done.
  - intros t [H Hm]%E5. apply list_elem_of_filter. split; [|by apply S1].
    cbn [fst]. intros E. apply Hm. rewrite <- E. by apply S1.
  - intros j' h' [_ H]%list_elem_of_filter. by eapply S2.
Qed.

Lemma Sound_fire t s : Sound s -> Sound (fire t s).
Proof.
  intros S. unfold fire. case_decide as Hin; [|done].
  pose proof S as (S1 & S2 & S3). apply Sound_call.
  - unfold ids. cbn [messages set_timers]. eapply S2, S1, Hin.
  - unfold Sound, ids. cbn [messages mounted timers log set_timers].
    split_and!; try done. intros t' [_ H]%list_elem_of_filter. by apply S1.
Qed.

Lemma Sound_step s ev : Sound s -> Sound (step s ev).
Proof.
  intros S. pose proof S as (S1 & S2 & S3). destruct ev; cbn [step].
  - rewrite addToast_eq. unfold Sound, ids.
    cbn [messages mounted timers log]. split_and!; try done.
    + intros t [H%S1 | ->%list_elem_of_singleton]%elem_of_app;
        rewrite elem_of_app; [by left | right; by apply list_elem_of_singleton].
    + intros j h. rewrite fmap_app, !elem_of_app.
      intros [H%S2 | [= -> ->]%list_elem_of_singleton]; [by left | right].
      by apply list_elem_of_singleton.
  - unfold click. case_decide as Hin; [|done]. apply Sound_call; [|done].
    apply elem_of_mounted_fst in Hin as [h H]. by eapply S2.
  - by apply Sound_unmount.
  - unfold tick. apply fires_invariant; [intros; by apply Sound_fire | done].
Qed.

Lemma reachable_invariants s : reachable s -> Fresh s /\ Sound s.
Proof.
  intros [evs ->].
  apply (step_invariant (fun s => Fresh s /\ Sound s)).
  - intros c s [F S]. split; [apply (Fresh_step s (Add c) F) | apply (Sound_step s (Add c) S)].
  - intros i s [F S]. split; [apply (Fresh_step s (Click i) F) | apply (Sound_step s (Click i) S)].
  - intros i s [F S]. split; [apply (Fresh_step s (Teardown i) F) | apply (Sound_step s (Teardown i) S)].
  - intros s [F S]. split; [apply (Fresh_step s Tick F) | apply (Sound_step s Tick S)].
  - split; unfold Fresh, Sound, initial; cbn; split_and!; intros; by rewrite ?elem_of_nil in *.
Qed.

Lemma run_app s evs evs' : run s (evs ++ evs') = run (run s evs) evs'.
Proof. unfold run. apply fold_left_app. Qed.

Lemma reachable_run s evs : reachable s -> reachable (run s evs).
Proof. intros [evs0 ->]. exists (evs0 ++ evs). by rewrite run_app. Qed.

Lemma Quiet_not_pending i n s : Quiet i n s -> ~ countdown_pending i s.
Proof. intros (_ & Q & _) (t & Ht & E). by apply (Q t). Qed.

End ToastReachable.

(** C8. A toast is displayed with a countdown of 3 time units (3000 ms passed
    to [setTimeout], a unit being a second) started on display.  Left alone,
    it stays listed while the countdown runs, and when the countdown expires
    the timer's callback removes it by its identifier, once.  If it is
    dismissed by hand, or its component is torn down, before the timeout, the
    countdown is cancelled: no timer for it is pending afterwards and the
    timer's callback never asks to remove it, whatever happens later.  No
    call of [removeToast] ever finds its entry already removed. *)
Theorem toast_countdown (s : state) (c : toast_data) :
  reachable s ->
  let i := next_id s in
  let s1 := step s (Add c) in
  delay = 3 * 1000
  /\ {| id := i; content := c |} ∈ messages s1
  /\ (exists h, {| handle := h; due := now s1 + delay; target := i |} ∈ timers s1)
  /\ (forall evs, untouched i evs = true -> elapsed evs < delay ->
        i ∈ ids (run s1 evs) /\ countdown_pending i (run s1 evs)
        /\ timer_removals i (run s1 evs) = 0)
  /\ (forall evs, untouched i evs = true -> delay <= elapsed evs ->
        (i ∉ ids (run s1 evs)) /\ ~ countdown_pending i (run s1 evs)
        /\ timer_removals i (run s1 evs) = 1)
  /\ (forall evs ev evs', untouched i evs = true -> elapsed evs < delay ->
        ev = Click i \/ ev = Teardown i ->
        ~ countdown_pending i (run s1 (evs ++ ev :: evs'))
        /\ timer_removals i (run s1 (evs ++ ev :: evs')) = 0
        /\ (ev = Click i -> i ∉ ids (run s1 (evs ++ ev :: evs'))))
  /\ (forall evs r, r ∈ log (run s1 evs) -> present r = true).
Proof.
  intros R i s1. destruct (reachable_invariants s R) as [F S].
  assert (L : Live i (next_handle s) (now s + delay) s1) by (by apply Live_added).
  assert (N : now s1 = now s) by (unfold s1; cbn [step]; by rewrite addToast_eq).
  split_and!.
  - reflexivity.
  - unfold s1. cbn [step]. rewrite addToast_eq. cbn [messages].
    rewrite elem_of_app. right. by apply list_elem_of_singleton.
  - exists (next_handle s). rewrite N. apply L.
  - intros evs Hu He.
    assert (L' : Live i (next_handle s) (now s + delay) (run s1 evs))
      by (apply Live_run; [done | lia | done]).
    split_and!; [apply L' | | apply L'].
    eexists. split; [apply L' | reflexivity].
  - intros evs Hu He.
    assert (G : Gone i 1 (run s1 evs)).
    { apply (Live_expires i (next_handle s) (now s + delay)); try done.
      - rewrite N. unfold delay. lia.
      - lia. }
    destruct G as [Q G]. split_and!; [done | by eapply Quiet_not_pending | apply Q].
  - intros evs ev evs' Hu He Hev.
    assert (L' : Live i (next_handle s) (now s + delay) (run s1 evs))
      by (apply Live_run; [done | lia | done]).
    rewrite run_app. change (run (run s1 evs) (ev :: evs'))
      with (run (step (run s1 evs) ev) evs').
    destruct Hev as [-> | ->]; cbn [step].
    + assert (G : Gone i 0 (run (click i (run s1 evs)) evs'))
        by (eapply Gone_run, Live_click_own, L').
      destruct G as [Q G]. split_and!; [by eapply Quiet_not_pending | apply Q | done].
    + assert (Q : Quiet i 0 (run (unmount i (run s1 evs)) evs'))
        by (eapply Quiet_run, Live_unmount_own, L').
      split_and!; [by eapply Quiet_not_pending | apply Q | discriminate].
  - intros evs r.
    assert (R' : reachable (run s1 evs)).
    { apply reachable_run. destruct R as [evs0 ->]. exists (evs0 ++ [Add c]).
      unfold s1. by rewrite run_app. }
    apply reachable_invariants in R' as [_ (_ & _ & S3)]. apply S3.
Qed.

Lemma toast_countdown_witness :
  ((0 ∉ ids (run (step initial (Add Profile.avatar_toast)) (repeat Tick 3000)))
   /\ ~ countdown_pending 0 (run (step initial (Add Profile.avatar_toast)) (repeat Tick 3000))
   /\ timer_removals 0 (run (step initial (Add Profile.avatar_toast)) (repeat Tick 3000)) = 1)
  /\
  (~ countdown_pending 0
       (run (step initial (Add Profile.avatar_toast)) ([Tick] ++ Click 0 :: repeat Tick 3000))
   /\ timer_removals 0
        (run (step initial (Add Profile.avatar_toast)) ([Tick] ++ Click 0 :: repeat Tick 3000)) = 0
   /\ (Click 0 = Click 0 ->
       0 ∉ ids (run (step initial (Add Profile.avatar_toast))
                  ([Tick] ++ Click 0 :: repeat Tick 3000)))).
Proof.
  assert (R : reachable initial) by (exists []; reflexivity).
  destruct (toast_countdown initial Profile.avatar_toast R) as (_ & _ & _ & _ & H5 & H6 & _).
  split.
  - apply H5; [vm_compute; reflexivity | vm_compute; lia].
  - apply H6; [vm_compute; reflexivity | vm_compute; lia | left; reflexivity].
Defined.

(* ===================================================================== *)
(** ** What each schema accepts *)
(* ===================================================================== *)

Section Acceptance.
Variable rEmail : string -> bool.
Implicit Types (data : object) (v : value).

Lemma check_required_iff data m v :
  check rEmail data [Rrequired m] v = [] <-> filled v.
Proof.
  unfold filled. destruct v as [| |s]; cbn.
  - split; [discriminate | intros (s & ? & _); discriminate].
  - split; [discriminate | intros (s & ? & _); discriminate].
  - destruct s; cbn.
    + split; [discriminate | intros (s & [= <-] & H); congruence].
    + split; [|done]. intros _. eexists. split; [reflexivity | discriminate].
Qed.

Lemma check_email_required_iff data m1 m2 v :
  check rEmail data [Remail m1; Rrequired m2] v = [] <->
  exists s, v = str s /\ s <> "" /\ rEmail s = true.
Proof.
  destruct v as [| |s]; cbn.
  - split; [discriminate | intros (s & ? & _); discriminate].
  - split; [discriminate | intros (s & ? & _); discriminate].
  - destruct s as [|c s]; cbn.
    + split; [discriminate | intros (s & [= <-] & H & _); congruence].
    + destruct (rEmail (String c s)) eqn:E; cbn.
      * split; [|done]. intros _. exists (String c s). done.
      * split; [discriminate|]. intros (s' & [= <-] & _ & H). congruence.
Qed.

Lemma check_min_iff data n m v :
  check rEmail data [Rmin n m] v = [] <->
  v = undefined \/ exists s, v = str s /\ n <= String.length s.
Proof.
  destruct v as [| |s]; cbn.
  - split; [by left | done].
  - split; [discriminate | intros [? | (s & ? & _)]; discriminate].
  - destruct (Nat.leb_spec n (String.length s)); cbn.
    + split; [|done]. intros _. right. by exists s.
    + split; [discriminate|]. intros [? | (s' & [= <-] & ?)]; [discriminate | lia].
Qed.

Lemma len_spec (p : string) :
  Profile.len (str p) = true <-> p = "" \/ 6 <= String.length p.
Proof.
  unfold Profile.len. destruct p as [|c p].
  - split; [by left | done].
  - change (truthy (str (String c p))) with true. cbv iota.
    rewrite Nat.leb_le. split; [by right | intros [? | ?]; [discriminate | done]].
Qed.

Lemma check_len_iff data m (p : string) :
  check rEmail data [Rtest m Profile.len] (str p) = [] <->
  p = "" \/ 6 <= String.length p.
Proof.
  rewrite <- len_spec. unfold check, failures. cbn [List.filter is_whitelist negb app passes].
  destruct (Profile.len (str p)); cbn; split; congruence.
Qed.

Lemma check_confirmation_iff data m (p : string) v :
  get data "password" = str p ->
  check rEmail data [RoneOf [ref "password"; lit undefined] m] v = [] <->
  v = undefined \/ v = str p.
Proof.
  intros H. unfold check, failures.
  cbn [List.filter is_whitelist negb app passes existsb operand_value].
  rewrite H. destruct v as [| |s]; cbn.
  - split; [by left | done].
  - split; [discriminate | intros [? | ?]; discriminate].
  - destruct (String.eqb_spec p s) as [-> | Hne]; cbn.
    + split; [by right | done].
    + split; [discriminate|]. intros [? | [= ->]]; [discriminate | done].
Qed.

Lemma check_no_rule_iff data v : check rEmail data [] v = [] <-> v <> null.
Proof. destruct v; cbn; split; congruence. Qed.

Lemma field_errors_nil data k rs :
  field_errors rEmail data (k, rs) = [] <-> check rEmail data rs (get data k) = [].
Proof.
  unfold field_errors. cbn [fst snd]. split; [apply map_eq_nil | by intros ->].
Qed.

(** X1. The sign-in schema accepts exactly the data whose e-mail is a
    non-empty string matching the e-mail pattern and whose password is a
    non-empty string. *)
Theorem signin_accepts_iff data :
  validate rEmail SignIn.schema data = Returned tt <->
  (exists e, get data "email" = str e /\ e <> "" /\ rEmail e = true) /\
  filled (get data "password").
Proof.
  rewrite validate_returned. unfold report. rewrite resolve_signin.
  cbn [and_then flat_map]. rewrite app_nil_r.
  rewrite <- check_email_required_iff, <- check_required_iff, <- !field_errors_nil.
  split.
  - intros [= H]. by apply app_eq_nil in H.
  - intros [-> ->]. reflexivity.
Qed.

(** X2. The sign-up schema accepts exactly the data whose name is a
    non-empty string, whose e-mail is a non-empty string matching the e-mail
    pattern, and whose password is either absent or a string of at least six
    characters: the password carries no [required] rule. *)
Theorem signup_accepts_iff data :
  validate rEmail SignUp.schema data = Returned tt <->
  filled (get data "name") /\
  (exists e, get data "email" = str e /\ e <> "" /\ rEmail e = true) /\
  (get data "password" = undefined \/
   exists p, get data "password" = str p /\ 6 <= String.length p).
Proof.
  rewrite validate_returned. unfold report. rewrite resolve_signup.
  cbn [and_then flat_map]. rewrite app_nil_r.
  rewrite <- check_required_iff, <- check_email_required_iff, <- check_min_iff,
    <- !field_errors_nil.
  split.
  - intros [= H]. apply app_eq_nil in H as [H1 H]. by apply app_eq_nil in H.
  - intros (-> & -> & ->). reflexivity.
Qed.

(** An accepted profile submission is one whose five fields pass their
    resolved rules. *)
Lemma profile_accepted_checks data (p : string) :
  get data "password" = str p ->
  validate rEmail Profile.schema data = Returned tt <->
  check rEmail data [Rrequired "Nome Obrigatório"] (get data "name") = [] /\
  check rEmail data [Remail "Digite um email válido"; Rrequired "Email Obrigatório"]
    (get data "email") = [] /\
  check rEmail data
    (if String.eqb p "" then []
     else [Rrequired "Obrigatório ao informar a nova senha"])
    (get data "old_password") = [] /\
  check rEmail data [Rtest "Senha maior que 6 caracteres" Profile.len] (str p) = [] /\
  check rEmail data [RoneOf [ref "password"; lit undefined] "Confirme a nova senha"]
    (get data "password_confirmation") = [].
Proof.
  intros P. rewrite validate_returned. unfold report.
  rewrite (resolve_profile data p P). cbn [and_then flat_map]. rewrite app_nil_r.
  rewrite <- P. rewrite <- !field_errors_nil. split.
  - intros [= H]. apply app_eq_nil in H as [H1 H]. apply app_eq_nil in H as [H2 H].
    apply app_eq_nil in H as [H3 H]. by apply app_eq_nil in H as [H4 H5].
  - intros (-> & -> & -> & -> & ->). reflexivity.
Qed.

(** X3. The profile schema accepts exactly the data in which: name is a
    non-empty string; e-mail is a non-empty string matching the pattern; the
    password is a string, empty or of at least six characters; the previous
    password is a non-empty string when the password is non-empty, and
    otherwise any string or absent; and the confirmation is absent or equal
    to the password. *)
Theorem profile_accepts_iff data :
  validate rEmail Profile.schema data = Returned tt <->
  filled (get data "name") /\
  (exists e, get data "email" = str e /\ e <> "" /\ rEmail e = true) /\
  exists p, get data "password" = str p /\
    (p = "" \/ 6 <= String.length p) /\
    (if String.eqb p "" then get data "old_password" <> null
     else filled (get data "old_password")) /\
    (get data "password_confirmation" = undefined \/
     get data "password_confirmation" = str p).
Proof.
  destruct (get data "password") as [| |p] eqn:P.
  - rewrite profile_throws by (by rewrite P).
    split; [discriminate | intros (_ & _ & p & ? & _); discriminate].
  - rewrite profile_throws by (by rewrite P).
    split; [discriminate | intros (_ & _ & p & ? & _); discriminate].
  - rewrite (profile_accepted_checks data p P).
    rewrite check_required_iff, check_email_required_iff, check_len_iff,
      (check_confirmation_iff data _ p _ P).
    assert (Hold : check rEmail data
                     (if String.eqb p "" then []
                      else [Rrequired "Obrigatório ao informar a nova senha"])
                     (get data "old_password") = [] <->
                   (if String.eqb p "" then get data "old_password" <> null
                    else filled (get data "old_password"))).
    { destruct (String.eqb p ""); [apply check_no_rule_iff | apply check_required_iff]. }
    rewrite Hold. split.
    + intros (H1 & H2 & H3 & H4 & H5). split; [done|]. split; [done|]. by exists p.
    + intros (H1 & H2 & p' & [= <-] & H4 & H3 & H5). done.
Qed.

End Acceptance.

(* ===================================================================== *)
(** ** Field by field *)
(* ===================================================================== *)

Section Fields.
Variable rEmail : string -> bool.
Variable server : request -> option object.
Implicit Types (data : object) (v : value) (scr : screen).

Lemma errors_at_signup_password data :
  errors_at rEmail SignUp.schema data "password" =
  Returned (check rEmail data [Rmin 6 "No mínimo 6 dígitos"] (get data "password")).
Proof.
  rewrite (errors_at_resolved rEmail _ _ _ _ (resolve_signup data)).
  cbn. by rewrite app_nil_r.
Qed.

Lemma errors_at_profile_password data p :
  get data "password" = str p ->
  errors_at rEmail Profile.schema data "password" =
  Returned (check rEmail data [Rtest "Senha maior que 6 caracteres" Profile.len] (str p)).
Proof.
  intros H. rewrite (errors_at_resolved rEmail _ _ _ _ (resolve_profile data p H)).
  cbn [List.filter fst snd String.eqb Ascii.eqb Bool.eqb flat_map].
  by rewrite app_nil_r, H.
Qed.

(** X4. On sign-up a password string is rejected, with 'No mínimo 6
    dígitos', exactly when it has fewer than six characters; that includes
    the empty string, so an empty password gets the length message and not a
    'required' one. *)
Theorem signup_password_bound data (p : string) :
  get data "password" = str p ->
  (errors_at rEmail SignUp.schema data "password"
     = Returned [Msg "No mínimo 6 dígitos"] <-> String.length p < 6)
  /\
  (errors_at rEmail SignUp.schema data "password" = Returned []
     <-> 6 <= String.length p).
Proof.
  intros H. rewrite errors_at_signup_password, H.
  unfold check, failures. cbn [List.filter is_whitelist negb app passes].
  destruct (Nat.leb_spec 6 (String.length p)); cbn; split; split;
    try congruence; try lia; intros; exfalso; lia.
Qed.

(** X5. On the profile screen a password string is rejected, with 'Senha
    maior que 6 caracteres', exactly when it has between one and five
    characters: the empty password (no change of password) passes, and so
    does a password of exactly six characters, although the message speaks
    of more than six. *)
Theorem profile_password_bound data (p : string) :
  get data "password" = str p ->
  (errors_at rEmail Profile.schema data "password"
     = Returned [Msg "Senha maior que 6 caracteres"]
     <-> 0 < String.length p < 6)
  /\
  (errors_at rEmail Profile.schema data "password" = Returned []
     <-> String.length p = 0 \/ 6 <= String.length p).
Proof.
  intros H. rewrite (errors_at_profile_password data p H).
  pose proof (check_len_iff rEmail data "Senha maior que 6 caracteres" p) as L.
  assert (E : check rEmail data [Rtest "Senha maior que 6 caracteres" Profile.len] (str p)
              = if Profile.len (str p) then []
                else [Msg "Senha maior que 6 caracteres"]).
  { unfold check, failures. cbn [List.filter is_whitelist negb app passes].
    by destruct (Profile.len (str p)). }
  rewrite E in *. assert (Hp : p = "" <-> String.length p = 0) by (by destruct p).
  rewrite Hp in L. clear E Hp.
  destruct (Profile.len (str p)).
  - assert (String.length p = 0 \/ 6 <= String.length p) as D by (by apply L).
    split; split; try congruence; try tauto. intros. exfalso. lia.
  - assert (~ (String.length p = 0 \/ 6 <= String.length p)) as D
      by (intros D; apply L in D; discriminate).
    split; split; try congruence; try tauto.
    intros _. lia.
Qed.

(** One value that is not [null] against the rules of one field of the three
    schemas never leaves more than one message. *)
Lemma check_at_most_one data (rs : list rule) v :
  In rs [ [Rrequired "Nome Obrigatório"];
          [Remail "Digite um email válido"; Rrequired "Email Obrigatório"];
          [Rrequired "Senha obrigatória"];
          [Rmin 6 "No mínimo 6 dígitos"];
          [];
          [Rrequired "Obrigatório ao informar a nova senha"];
          [Rtest "Senha maior que 6 caracteres" Profile.len];
          [RoneOf [ref "password"; lit undefined] "Confirme a nova senha"] ] ->
  v <> null ->
  length (check rEmail data rs v) <= 1.
Proof.
  intros H Hv. unfold check, failures.
  repeat (destruct H as [<- | H]; [|]); [..|destruct H];
    cbn [List.filter is_whitelist negb app passes existsb];
    destruct v as [| |[|c s]]; try congruence;
    cbn [app length map rule_message List.filter negb String.eqb String.length
         Nat.eqb orb];
    repeat match goal with
           | |- context [if ?b then _ else _] =>
               match type of b with bool => destruct b end
           end;
    cbn; lia.
Qed.

End Fields.

Lemma signup_password_bound_witness :
  errors_at sample_rEmail SignUp.schema (<["password" := str ""]> signup_ok) "password"
    = Returned [Msg "No mínimo 6 dígitos"].
Proof.
  apply (signup_password_bound sample_rEmail (<["password" := str ""]> signup_ok) "").
  - vm_compute. reflexivity.
  - cbn. lia.
Defined.

Lemma profile_password_bound_witness :
  errors_at sample_rEmail Profile.schema (<["password" := str "123456"]> profile_ok)
    "password" = Returned [].
Proof.
  apply (profile_password_bound sample_rEmail
           (<["password" := str "123456"]> profile_ok) "123456").
  - vm_compute. reflexivity.
  - right. cbn. lia.
Defined.

Section FormErrors.
Variable rEmail : string -> bool.
Variable server : request -> option object.
Implicit Types (data : object) (v : value) (scr : screen).

(** The three schemas resolve, or the condition's callback throws a
    [TypeError]: resolution itself never reports a validation error. *)
Lemma report_of_validation_error scr data inner :
  validate rEmail (schema_of scr) data = Thrown (ValidationError inner) ->
  report rEmail (schema_of scr) data = Returned inner.
Proof.
  unfold validate. destruct (report rEmail (schema_of scr) data) as [l|e] eqn:R.
  - destruct l; cbn; [discriminate | congruence].
  - cbn. intros [= ->]. exfalso. unfold report in R. destruct scr; cbn [schema_of] in R.
    + by rewrite resolve_signin in R.
    + by rewrite resolve_signup in R.
    + destruct (get data "password") as [| |p] eqn:P.
      * rewrite resolve_profile_absent in R by (by rewrite P). discriminate.
      * rewrite resolve_profile_absent in R by (by rewrite P). discriminate.
      * by rewrite (resolve_profile data p P) in R.
Qed.

(** X6. Whatever a form delivers (strings, or nothing) for a field of one of
    the three schemas, the schema reports at most one message on it: the
    rules of a field exclude one another, so the inline error a field shows
    is the only one it has. *)
Theorem at_most_one_message_per_field scr data path msgs :
  get data path <> null ->
  (scr = ProfileScreen -> exists p, get data "password" = str p) ->
  errors_at rEmail (schema_of scr) data path = Returned msgs ->
  length msgs <= 1.
Proof.
  intros Hv Hp. destruct scr; cbn [schema_of].
  - rewrite (errors_at_resolved rEmail _ _ _ _ (resolve_signin data)).
    cbn [List.filter fst].
    destruct (String.eqb_spec "email" path) as [<- | ?];
      [|destruct (String.eqb_spec "password" path) as [<- | ?]];
      cbn; intros [= <-]; rewrite ?app_nil_r; try (cbn; lia);
      (apply check_at_most_one; [cbn; tauto | done]).
  - rewrite (errors_at_resolved rEmail _ _ _ _ (resolve_signup data)).
    cbn [List.filter fst].
    destruct (String.eqb_spec "name" path) as [<- | ?];
      [|destruct (String.eqb_spec "email" path) as [<- | ?];
        [|destruct (String.eqb_spec "password" path) as [<- | ?]]];
      cbn; intros [= <-]; rewrite ?app_nil_r; try (cbn; lia);
      (apply check_at_most_one; [cbn; tauto | done]).
  - destruct (Hp eq_refl) as [p P].
    rewrite (errors_at_resolved rEmail _ _ _ _ (resolve_profile data p P)).
    cbn [List.filter fst].
    destruct (String.eqb_spec "name" path) as [<- | ?];
      [|destruct (String.eqb_spec "email" path) as [<- | ?];
        [|destruct (String.eqb_spec "old_password" path) as [<- | ?];
          [|destruct (String.eqb_spec "password" path) as [<- | ?];
            [|destruct (String.eqb_spec "password_confirmation" path) as [<- | ?]]]]];
      cbn; intros [= <-]; rewrite ?app_nil_r; try (cbn; lia);
      (apply check_at_most_one; [destruct (String.eqb p ""); cbn; tauto | done]).
Qed.

(** X7. When validation rejects a submission, the form (mounted) ends up
    showing, on every path, the schema's message for that path, and nothing
    on a path the schema has no complaint about. *)
Theorem rejected_form_shows_schema_messages scr data inner path :
  validate rEmail (schema_of scr) data = Thrown (ValidationError inner) ->
  exists msgs,
    errors_at rEmail (schema_of scr) data path = Returned msgs /\
    form_errors (trace (submit rEmail server true scr data)) !! path = last msgs.
Proof.
  intros V. pose proof (report_of_validation_error scr data inner V) as R.
  exists (map snd (List.filter (fun e => String.eqb (fst e) path) inner)).
  split.
  - unfold errors_at. by rewrite R.
  - rewrite (submit_rejected rEmail server scr data inner V).
    assert (E : forall pre e,
              form_errors (pre ++ [Validate data; SetErrors e]) = e).
    { intros pre e. unfold form_errors. by rewrite fold_left_app. }
    rewrite E. apply getValidationErrors_lookup.
Qed.

(** X8. The 'name' error that the sign-in handler sets first is what the form
    is left with when the data is accepted; when the data is rejected it is
    replaced by the validation errors, none of which is on 'name'.  The
    sign-in form has no input of that name to show it on. *)
Theorem signin_name_error_fate data :
  (validate rEmail SignIn.schema data = Returned tt ->
     form_errors (trace (SignIn.handleSubmit rEmail true data))
       = {[ "name" := Msg "Nome obrigatório" ]})
  /\
  (validate rEmail SignIn.schema data <> Returned tt ->
     form_errors (trace (SignIn.handleSubmit rEmail true data)) !! "name" = None
     /\ form_errors (trace (SignIn.handleSubmit rEmail true data)) <> ∅)
  /\ ~ In "name" (inputs SignInScreen).
Proof.
  split; [|split; [|cbn; intros [? | [? | []]]; discriminate]].
  - intros V. by rewrite signin_trace, V.
  - intros V. destruct (validate rEmail SignIn.schema data) as [[]|e] eqn:E; [done|].
    assert (exists inner, e = ValidationError inner /\ inner <> []) as (inner & -> & Hne).
    { unfold validate, report in E. rewrite resolve_signin in E. cbn [and_then] in E.
      destruct (flat_map _ _) as [|x l]; [discriminate|]. injection E as <-.
      by exists (x :: l). }
    pose proof (report_of_validation_error SignInScreen data inner E) as R.
    change (SignIn.handleSubmit rEmail true data)
      with (submit rEmail server true SignInScreen data).
    rewrite (submit_rejected rEmail server SignInScreen data inner E).
    cbn [app form_errors fold_left]. split.
    + rewrite getValidationErrors_lookup.
      rewrite (inner_at rEmail _ _ _ _ "name" R (resolve_signin data)). reflexivity.
    + destruct inner as [|[k m] inner]; [done|]. clear. intros H.
      assert (G : forall (l : list (string * message)) (acc : gmap string message) k0,
                is_Some (acc !! k0) ->
                exists k1, is_Some (fold_left (fun errors e => <[fst e := snd e]> errors) l acc !! k1)).
      { induction l as [|[k' m'] l IH]; intros acc k0 Hk; [by exists k0|].
        cbn [fold_left]. apply (IH _ k'). rewrite lookup_insert_eq. by eexists. }
      destruct (G inner (<[k := m]> ∅) k) as [k1 [x Hx]].
      { rewrite lookup_insert_eq. by eexists. }
      unfold getValidationErrors in H. cbn [fold_left fst snd] in H.
      rewrite H in Hx. by rewrite lookup_empty in Hx.
Qed.

End FormErrors.

Lemma at_most_one_message_per_field_witness :
  length [Msg "Digite um email válido"] <= 1.
Proof.
  apply (at_most_one_message_per_field sample_rEmail ProfileScreen
           (<["email" := str "ana"]> profile_ok) "email"
           [Msg "Digite um email válido"]).
  - vm_compute. discriminate.
  - intros _. exists "newpass1". vm_compute. reflexivity.
  - vm_compute. reflexivity.
Defined.

Lemma rejected_form_shows_schema_messages_witness :
  exists msgs,
    errors_at sample_rEmail (schema_of SignUpScreen) signup_no_name "name"
      = Returned msgs /\
    form_errors (trace (submit sample_rEmail server_up true SignUpScreen signup_no_name))
      !! "name" = last msgs.
Proof.
  apply (rejected_form_shows_schema_messages sample_rEmail server_up SignUpScreen
           signup_no_name [("name", Msg "Nome Obrigatório")] "name").
  vm_compute. reflexivity.
Defined.

Lemma signin_name_error_fate_witness :
  form_errors (trace (SignIn.handleSubmit sample_rEmail true signin_ok))
    = {[ "name" := Msg "Nome obrigatório" ]}.
Proof.
  apply (signin_name_error_fate sample_rEmail server_up signin_ok).
  vm_compute. reflexivity.
Defined.

(* ===================================================================== *)
(** ** What a submission leads to *)
(* ===================================================================== *)

Section Outcomes.
Variable rEmail : string -> bool.
Variable server : request -> option object.
Variable formRef_current : bool.
Implicit Types (data : object) (scr : screen).

Lemma recover_trace scr e :
  trace (match scr with
         | SignInScreen => SignIn.recover formRef_current e
         | SignUpScreen => SignUp.recover formRef_current e
         | ProfileScreen => Profile.recover formRef_current e
         end) =
  if match scr with SignInScreen => true | _ => instanceof_ValidationError e end
  then (if formRef_current then [SetErrors (getValidationErrors e)] else [])
  else [AddToast (generic_toast scr)].
Proof.
  destruct scr; unfold SignIn.recover, SignUp.recover, Profile.recover,
    formRef_setErrors; destruct formRef_current, e; reflexivity.
Qed.

(** The trace of any submission, by what validation and the server say. *)
Lemma submit_trace scr data :
  trace (submit rEmail server formRef_current scr data) =
  (match scr with
   | SignInScreen =>
       if formRef_current
       then [SetErrors {[ "name" := Msg "Nome obrigatório" ]}] else []
   | _ => []
   end)
  ++ Validate data ::
     match validate rEmail (schema_of scr) data with
     | Returned _ =>
         match request_of scr data with
         | Some r =>
             Http r ::
             match server r with
             | Some _ => [AddToast SignUp.success_toast; HistoryPush "/dashboard"]
             | None => [AddToast (generic_toast scr)]
             end
         | None => []
         end
     | Thrown e =>
         if match scr with SignInScreen => true | _ => instanceof_ValidationError e end
         then (if formRef_current then [SetErrors (getValidationErrors e)] else [])
         else [AddToast (generic_toast scr)]
     end.
Proof.
  destruct scr; cbn [submit schema_of request_of].
  - rewrite signin_trace. destruct (validate _ _ _) as [[]|e]; [done|].
    by rewrite (recover_trace SignInScreen e).
  - rewrite signup_trace. cbn zeta. destruct (validate _ _ _) as [[]|e]; [done|].
    by rewrite (recover_trace SignUpScreen e).
  - rewrite profile_trace. cbn zeta. destruct (validate _ _ _) as [[]|e]; [done|].
    by rewrite (recover_trace ProfileScreen e).
Qed.

(** X9. A submit handler navigates, and then to '/dashboard' and once, in
    one case only: the screen sends a request (sign-up, profile edit), the
    data was accepted and the request succeeded.  A rejected submission, a
    refused request and every sign-in submission leave the user where they
    are. *)
Theorem navigation_only_after_success scr data :
  pushed (trace (submit rEmail server formRef_current scr data)) =
  match request_of scr data, validate rEmail (schema_of scr) data with
  | Some r, Returned _ =>
      match server r with Some _ => ["/dashboard"] | None => [] end
  | _, _ => []
  end.
Proof.
  rewrite submit_trace. unfold pushed. rewrite flat_map_app.
  destruct scr; cbn [request_of]; destruct formRef_current;
    destruct (validate _ _ _) as [[]|e]; cbn; try reflexivity;
    try (destruct (server _); reflexivity);
    destruct e; reflexivity.
Qed.

(** X10. A submission shows at most one toast, and which one is decided by
    how it ended: none on sign-in and none when validation rejects the data;
    the success toast when the request succeeded; the screen's generic error
    toast when the request was refused or validation threw something that is
    not a validation error. *)
Theorem toast_by_outcome scr data :
  shown (trace (submit rEmail server formRef_current scr data)) =
  match request_of scr data, validate rEmail (schema_of scr) data with
  | None, _ => []
  | Some r, Returned _ =>
      match server r with
      | Some _ => [success_toast scr]
      | None => [generic_toast scr]
      end
  | Some _, Thrown e =>
      if instanceof_ValidationError e then [] else [generic_toast scr]
  end.
Proof.
  rewrite submit_trace. unfold shown. rewrite flat_map_app.
  destruct scr; cbn [request_of]; destruct formRef_current;
    destruct (validate _ _ _) as [[]|e]; cbn; try reflexivity;
    try (destruct (server _); reflexivity);
    destruct e; reflexivity.
Qed.


(** X12. A profile submission whose password field is absent ([undefined] or
    [null]) never reaches the server and marks no field, whatever else is
    wrong with the data: validation is called, throws, and the generic error
    toast is all the user gets. *)
Theorem profile_absent_password_generic_toast data :
  get data "password" = undefined \/ get data "password" = null ->
  trace (Profile.handleSubmit rEmail server formRef_current data)
    = [Validate data; AddToast Profile.failure_toast].
Proof.
  intros H. rewrite profile_trace. cbn zeta.
  rewrite profile_throws by (destruct H as [-> | ->]; reflexivity).
  reflexivity.
Qed.

(** X13. A profile update that changes the password always carries the
    current one: when the data is accepted and the new password is not
    empty, the request body holds a non-empty [old_password], the new
    [password], and a [password_confirmation] that is either equal to it or
    [undefined]. *)
Theorem password_change_carries_current_password data (p : string) :
  validate rEmail Profile.schema data = Returned tt ->
  get data "password" = str p -> p <> "" ->
  filled (get data "old_password") /\
  Profile.formData data !! "old_password" = Some (get data "old_password") /\
  Profile.formData data !! "password" = Some (str p) /\
  (Profile.formData data !! "password_confirmation" = Some (str p) \/
   Profile.formData data !! "password_confirmation" = Some undefined).
Proof.
  intros V P Hp. apply (profile_accepted_checks rEmail data p P) in V as (_ & _ & Ho & _ & Hc).
  apply (check_confirmation_iff rEmail data _ p _ P) in Hc.
  destruct (String.eqb_spec p ""); [done|]. apply check_required_iff in Ho.
  destruct (formData_lookup data) as (_ & _ & Bk).
  assert (T : truthy (get data "old_password") = true) by (by apply truthy_non_empty).
  rewrite !Bk, T, P by tauto. split_and!; try done.
  destruct Hc as [-> | ->]; [by right | by left].
Qed.

End Outcomes.

Lemma profile_absent_password_generic_toast_witness :
  trace (Profile.handleSubmit sample_rEmail server_up true
           (delete "password" (<["name" := str ""]> profile_ok)))
  = [Validate (delete "password" (<["name" := str ""]> profile_ok));
     AddToast Profile.failure_toast].
Proof.
  apply (profile_absent_password_generic_toast sample_rEmail server_up true
           (delete "password" (<["name" := str ""]> profile_ok))).
  left. vm_compute. reflexivity.
Defined.

Lemma password_change_carries_current_password_witness :
  filled (get profile_ok "old_password") /\
  Profile.formData profile_ok !! "old_password" = Some (get profile_ok "old_password") /\
  Profile.formData profile_ok !! "password" = Some (str "newpass1") /\
  (Profile.formData profile_ok !! "password_confirmation" = Some (str "newpass1") \/
   Profile.formData profile_ok !! "password_confirmation" = Some undefined).
Proof.
  apply (password_change_carries_current_password sample_rEmail profile_ok "newpass1").
  - vm_compute. reflexivity.
  - vm_compute. reflexivity.
  - discriminate.
Defined.

(* ===================================================================== *)
(** ** The avatar *)
(* ===================================================================== *)

(** X14. Changing the avatar sends one PATCH to '/users/avatar' carrying the
    first selected file only, whatever else was selected, and nothing when
    there is no file list.  The user is updated, with the data of the
    response, and the 'Avatar atualizado' toast shown, exactly when the
    request succeeds; the handler never navigates and never touches the
    form. *)
Theorem avatar_change_effects
  (server : request -> option object) (files : option (list string)) :
  let tr := trace (Profile.handleAvatarChange server files) in
  let r fs := {| verb := PATCH; url := "/users/avatar";
                 body := Multipart [("avatar", head fs)] |} in
  List.filter is_request tr
    = match files with Some fs => [Http (r fs)] | None => [] end
  /\ user_updates tr
     = match files with
       | Some fs => match server (r fs) with Some u => [u] | None => [] end
       | None => []
       end
  /\ shown tr
     = match files with
       | Some fs =>
           match server (r fs) with Some _ => [Profile.avatar_toast] | None => [] end
       | None => []
       end
  /\ pushed tr = [] /\ field_mappings tr = 0.
Proof.
  destruct files as [fs|]; [|done].
  unfold Profile.handleAvatarChange, detached, api. cbn.
  destruct (server _); done.
Qed.

(* ===================================================================== *)
(** ** Where a submission lands *)
(* ===================================================================== *)

Lemma lower_slash (c : ascii) : Router.lower c = "/"%char <-> c = "/"%char.
Proof.
  destruct c as [[] [] [] [] [] [] [] []]; vm_compute; split; congruence.
Qed.

(** X15. The route table renders the sign-in screen at the root path and at
    no other location. *)
Theorem only_root_is_routed (pathname : string) :
  Router.Switch Router.Routes pathname = Some Router.SignInPage <->
  pathname = "/" \/ pathname = "".
Proof.
  unfold Router.Switch, Router.Routes, Router.matchPath.
  cbn [List.find Router.path Router.exact Router.component Router.strip_slash
       Router.lowercase negb andb Ascii.eqb Bool.eqb].
  rewrite orb_false_r.
  destruct pathname as [|c [|c' rest]]; cbn [Router.lowercase Router.strip_slash].
  - cbn. split; [by right | done].
  - destruct (Ascii.eqb_spec (Router.lower c) "/") as [E | E].
    + apply lower_slash in E as ->. cbn. split; [by left | done].
    + cbn. split; [discriminate|]. intros [[= ->] | ?]; [|discriminate].
      exfalso. apply E. reflexivity.
  - cbn. split; [discriminate | intros [? | ?]; discriminate].
Qed.

(** X16. Wherever a submit handler navigates, no route is registered: after a
    successful sign-up or profile update the router has nothing to render. *)
Theorem navigation_has_no_route
  (rEmail : string -> bool) (server : request -> option object)
  (formRef_current : bool) (scr : screen) (data : object) (target : string) :
  In target (pushed (trace (submit rEmail server formRef_current scr data))) ->
  Router.Switch Router.Routes target = None.
Proof.
  rewrite submit_trace. unfold pushed. rewrite flat_map_app, in_app_iff.
  intros [H | H].
  - destruct scr, formRef_current; destruct H.
  - cbn [flat_map app] in H.
    destruct (validate rEmail (schema_of scr) data) as [[]|e].
    + destruct (request_of scr data) as [r|]; [|destruct H].
      cbn [flat_map app] in H. destruct (server r); cbn in H.
      * destruct H as [<- | []]. reflexivity.
      * destruct H.
    + destruct scr, formRef_current, e; destruct H.
Qed.

Lemma navigation_has_no_route_witness :
  Router.Switch Router.Routes "/dashboard" = None.
Proof.
  apply (navigation_has_no_route sample_rEmail server_up true SignUpScreen
           signup_ok "/dashboard").
  vm_compute. left. reflexivity.
Defined.

(* ===================================================================== *)
(** ** Toasts and their timers, one to one *)
(* ===================================================================== *)

Section ToastPairs.
Implicit Types (s : state) (t : timer) (i j h d : nat).

Lemma Paired_shrink s s' :
  Paired s ->
  (forall c, c ∈ mounted s' -> c ∈ mounted s) ->
  (forall t, t ∈ timers s' -> t ∈ timers s) ->
  (forall i h d, (i, h) ∈ mounted s' ->
     {| handle := h; due := d; target := i |} ∈ timers s ->
     {| handle := h; due := d; target := i |} ∈ timers s') ->
  Paired s'.
Proof.
  intros (P1 & P2 & P3 & P4) M T K. unfold Paired. split_and!.
  - intros i h H. destruct (P1 i h (M _ H)) as [d Hd]. exists d. by apply K.
  - intros i j h Hi Hj. by apply (P2 i j h); apply M.
  - intros i h h' Hi Hj. by apply (P3 i h h'); apply M.
  - intros t t' Ht Ht'. by apply P4; apply T.
Qed.

Lemma Paired_unmount j s : Paired s -> Paired (unmount j s).
Proof.
  intros P. pose proof P as (P1 & P2 & P3 & P4).
  destruct (unmount_spec j s) as (_ & _ & _ & _ & _ & E4 & E5).
  apply (Paired_shrink s); [done | | |].
  - intros c. rewrite E4. by intros [_ H]%list_elem_of_filter.
  - intros t H. by apply E5 in H as [H _].
  - intros i h d. rewrite E4. intros [Hne H]%list_elem_of_filter Ht.
    apply E5. split; [done|]. cbn [handle fst] in *. intros Hj.
    apply Hne. by apply (P2 i j h).
Qed.

Lemma Paired_call o j s : Paired s -> Paired (call_removeToast o j s).
Proof.
  intros P. pose proof P as (P1 & P2 & P3 & P4).
  destruct (call_removeToast_spec o j s) as (_ & _ & _ & _ & _ & E4 & E5).
  apply (Paired_shrink s); [done | | |].
  - intros c. rewrite E4. by intros [_ H]%list_elem_of_filter.
  - intros t H. by apply E5 in H as [H _].
  - intros i h d. rewrite E4. intros [Hne H]%list_elem_of_filter Ht.
    apply E5. split; [done|]. cbn [handle fst] in *. intros Hj.
    apply Hne. by apply (P2 i j h).
Qed.

Lemma Paired_fire t s : Sound s -> Paired s -> Paired (fire t s).
Proof.
  intros (S1 & S2 & S3) P. pose proof P as (P1 & P2 & P3 & P4).
  unfold fire. case_decide as Hin; [|done].
  match goal with |- Paired (call_removeToast ?o ?j ?s0) =>
    destruct (call_removeToast_spec o j s0) as (_ & _ & _ & _ & _ & E4 & E5) end.
  cbn [mounted timers set_timers] in E4, E5.
  apply (Paired_shrink s); [done | | |].
  - intros c. rewrite E4. by intros [_ H]%list_elem_of_filter.
  - intros t' [[_ H]%list_elem_of_filter _]%E5. done.
  - intros i h d. rewrite E4. intros [Hne H]%list_elem_of_filter Ht.
    cbn [fst] in Hne. apply E5. split.
    + apply list_elem_of_filter. split; [|done]. cbn [handle]. intros ->.
      apply Hne. apply (P2 i (target t) (handle t)); [done | by apply S1].
    + cbn [handle]. intros Hj. apply Hne. by apply (P2 i (target t) h).
Qed.

Lemma Paired_addToast c s : Fresh s -> Paired s -> Paired (addToast c s).
Proof.
  intros (F1 & F2 & F3 & F4) (P1 & P2 & P3 & P4). rewrite addToast_eq.
  unfold Paired. cbn [mounted timers]. split_and!.
  - intros i h [H | [= -> ->]%list_elem_of_singleton]%elem_of_app.
    + destruct (P1 i h H) as [d Hd]. exists d. rewrite elem_of_app. by left.
    + eexists. rewrite elem_of_app. right. by apply list_elem_of_singleton.
  - intros i j h Hi Hj. rewrite elem_of_app, list_elem_of_singleton in Hi, Hj.
    destruct Hi as [Hi | Hi], Hj as [Hj | Hj]; simplify_eq.
    + by apply (P2 i j h).
    + apply F2 in Hi. lia.
    + apply F2 in Hj. lia.
    + done.
  - intros i h h' Hi Hj. rewrite elem_of_app, list_elem_of_singleton in Hi, Hj.
    destruct Hi as [Hi | Hi], Hj as [Hj | Hj]; simplify_eq.
    + by apply (P3 i h h').
    + apply F2 in Hi. lia.
    + apply F2 in Hj. lia.
    + done.
  - intros t t' [Ht | ->%list_elem_of_singleton]%elem_of_app
                [Ht' | ->%list_elem_of_singleton]%elem_of_app; cbn [handle].
    + by apply P4.
    + intros E. apply F3 in Ht. lia.
    + intros E. apply F3 in Ht'. lia.
    + done.
Qed.

Lemma Paired_step s ev : Fresh s -> Sound s -> Paired s -> Paired (step s ev).
Proof.
  intros F S P. destruct ev; cbn [step].
  - by apply Paired_addToast.
  - unfold click. case_decide; [by apply Paired_call | done].
  - by apply Paired_unmount.
  - unfold tick.
    apply (fires_invariant (fun s' => Sound s' /\ Paired s')); [|done].
    intros t s' [S' P']. split; [by apply Sound_fire | by apply Paired_fire].
Qed.

(** A timer that has fired, or was cleared, is pending no more. *)
Lemma fire_timers a t s : t ∈ timers (fire a s) -> t ∈ timers s /\ t <> a.
Proof.
  unfold fire. case_decide as Hin.
  - match goal with |- _ ∈ timers (call_removeToast ?o ?j ?s0) -> _ =>
      destruct (call_removeToast_spec o j s0) as (_ & _ & _ & _ & _ & _ & E5) end.
    cbn [timers set_timers] in E5.
    intros [[Hne H]%list_elem_of_filter _]%E5. split; [done|]. by intros ->.
  - intros H. split; [done|]. by intros ->.
Qed.

Lemma fires_timers (l : list timer) t s :
  t ∈ timers (fold_left (fun s'' a => fire a s'') l s) -> t ∈ timers s /\ t ∉ l.
Proof.
  revert s. induction l as [|a l IH]; intros s; cbn [fold_left].
  - intros H. split; [done | apply not_elem_of_nil].
  - intros [[H Hne]%fire_timers Hl]%IH. split; [done|].
    rewrite not_elem_of_cons. done.
Qed.

Lemma tick_timers t s : t ∈ timers (tick s) -> t ∈ timers s /\ S (now s) < due t.
Proof.
  unfold tick. intros [H Hl]%fires_timers. cbn [timers now set_now] in *.
  split; [done|]. rewrite list_elem_of_filter in Hl.
  destruct (decide (due t <= S (now s))); [exfalso; by apply Hl | lia].
Qed.

Lemma Punctual_step s ev : Punctual s -> Punctual (step s ev).
Proof.
  intros P. destruct ev; cbn [step].
  - rewrite addToast_eq. intros t. cbn [timers now].
    intros [H%P | ->%list_elem_of_singleton]%elem_of_app; [done|].
    cbn [due]. unfold delay. lia.
  - unfold click. case_decide as Hin; [|done].
    destruct (call_removeToast_spec ByClick toast_id s) as (N & _ & _ & _ & _ & _ & E5).
    intros t [Ht _]%E5. rewrite N. by apply P.
  - destruct (unmount_spec toast_id s) as (N & _ & _ & _ & _ & _ & E5).
    intros t [Ht _]%E5. rewrite N. by apply P.
  - intros t [H Hd]%tick_timers. rewrite now_tick. apply P in H. lia.
Qed.

Lemma reachable_paired s :
  reachable s -> Fresh s /\ Sound s /\ Paired s /\ Punctual s.
Proof.
  intros [evs ->].
  assert (Hstep : forall ev s, Fresh s /\ Sound s /\ Paired s /\ Punctual s ->
            Fresh (step s ev) /\ Sound (step s ev) /\ Paired (step s ev)
            /\ Punctual (step s ev)).
  { intros ev s (F & S & P & U). split_and!.
    - by apply Fresh_step.
    - by apply Sound_step.
    - by apply Paired_step.
    - by apply Punctual_step. }
  apply (step_invariant (fun s => Fresh s /\ Sound s /\ Paired s /\ Punctual s)).
  - intros c s. apply (Hstep (Add c)).
  - intros i s. apply (Hstep (Click i)).
  - intros i s. apply (Hstep (Teardown i)).
  - intros s. apply (Hstep Tick).
  - unfold Fresh, Sound, Paired, Punctual, initial; cbn.
    split_and!; intros; by rewrite ?elem_of_nil in *.
Qed.

End ToastPairs.

(** X17. However the toasts came and went, the components on screen and the
    pending timers are paired one to one: each component has its timer
    pending, that timer is the only one with its handle and the only one
    that would remove its toast; and each pending timer belongs to a
    component on screen that shows a listed message.  The cleanup never
    leaves a timer behind and never clears one too many. *)
Theorem one_timer_per_toast (s : state) :
  reachable s ->
  (forall i h, (i, h) ∈ mounted s ->
     exists d, {| handle := h; due := d; target := i |} ∈ timers s /\
       forall t, t ∈ timers s -> handle t = h \/ target t = i ->
                 t = {| handle := h; due := d; target := i |})
  /\
  (forall t, t ∈ timers s -> (target t, handle t) ∈ mounted s /\ target t ∈ ids s).
Proof.
  intros R. destruct (reachable_paired s R) as (_ & (S1 & S2 & _) & (P1 & P2 & P3 & P4) & _).
  split.
  - intros i h H. destruct (P1 i h H) as [d Hd]. exists d. split; [done|].
    intros t Ht [E | E].
    + by apply P4.
    + apply P4; [done | done |]. cbn [handle].
      apply (P3 i (handle t) h); [|done]. rewrite <- E. by apply S1.
  - intros t Ht. split; [by apply S1|]. eapply S2, S1, Ht.
Qed.

Lemma one_timer_per_toast_witness :
  (1, 1) ∈ mounted (run initial [Add Profile.avatar_toast; Tick;
                                 Add SignUp.success_toast; Click 0])
  /\ 1 ∈ ids (run initial [Add Profile.avatar_toast; Tick;
                           Add SignUp.success_toast; Click 0]).
Proof.
  assert (R : reachable (run initial [Add Profile.avatar_toast; Tick;
                                      Add SignUp.success_toast; Click 0]))
    by (eexists; reflexivity).
  destruct (one_timer_per_toast _ R) as [_ H].
  apply (H {| handle := 1; due := 3001; target := 1 |}).
  vm_compute. left.
Defined.

(** X18. No pending timer is ever overdue and none is set further ahead than
    the component's 3000 ms: in every state that can arise, each pending
    timer is due after now and at most 3000 ms from now. *)
Theorem timers_are_punctual (s : state) (t : timer) :
  reachable s -> t ∈ timers s -> now s < due t <= now s + delay.
Proof.
  intros R. destruct (reachable_paired s R) as (_ & _ & _ & U). apply U.
Qed.

Lemma timers_are_punctual_witness :
  now (run initial [Add Profile.avatar_toast; Tick]) < 3000
  <= now (run initial [Add Profile.avatar_toast; Tick]) + delay.
Proof.
  apply (timers_are_punctual (run initial [Add Profile.avatar_toast; Tick])
           {| handle := 0; due := 3000; target := 0 |}).
  - eexists. reflexivity.
  - vm_compute. left.
Defined.

(** X19. Dismissing a toast, or tearing its component down, clears the timer
    of that toast and of no other: the timers pending afterwards are exactly
    those that were pending for the other toasts. *)
Theorem dismissal_clears_only_its_timer (s : state) (j : nat) (ev : event) (t : timer) :
  reachable s -> ev = Click j \/ ev = Teardown j ->
  (t ∈ timers (step s ev) <-> t ∈ timers s /\ target t <> j).
Proof.
  intros R Hev.
  destruct (reachable_paired s R) as (_ & (S1 & S2 & _) & (P1 & P2 & P3 & P4) & _).
  assert (K : forall t, t ∈ timers s -> ((j, handle t) ∉ mounted s <-> target t <> j)).
  { intros t' Ht'. split.
    - intros Hn E. apply Hn. rewrite <- E. by apply S1.
    - intros Hne Hj. apply Hne. apply (P2 (target t') j (handle t')); [by apply S1 | done]. }
  destruct Hev as [-> | ->]; cbn [step].
  - unfold click. case_decide as Hin.
    + destruct (call_removeToast_spec ByClick j s) as (_ & _ & _ & _ & _ & _ & E5).
      rewrite E5. split; intros [H1 H2]; (split; [done|]); by apply (K t).
    + split; [|tauto]. intros H. split; [done|]. intros E. apply Hin.
      apply elem_of_mounted_fst. exists (handle t). rewrite <- E. by apply S1.
  - destruct (unmount_spec j s) as (_ & _ & _ & _ & _ & _ & E5).
    rewrite E5. split; intros [H1 H2]; (split; [done|]); by apply (K t).
Qed.

Lemma dismissal_clears_only_its_timer_witness :
  {| handle := 1; due := 3001; target := 1 |}
    ∈ timers (step (run initial [Add Profile.avatar_toast; Tick; Add SignUp.success_toast])
                (Click 0)).
Proof.
  apply (dismissal_clears_only_its_timer
           (run initial [Add Profile.avatar_toast; Tick; Add SignUp.success_toast])
           0 (Click 0) {| handle := 1; due := 3001; target := 1 |}).
  - eexists. reflexivity.
  - left. reflexivity.
  - split; [vm_compute; right; left | cbn; lia].
Defined.

(* ===================================================================== *)
(** ** Forms and their inputs *)
(* ===================================================================== *)

Section Forms.
Variable rEmail : string -> bool.
Variable server : request -> option object.
Implicit Types (data : object) (scr : screen).

(** With what a form delivers validation ends in a verdict. *)
Lemma delivered_verdict scr data :
  delivered scr data ->
  validate rEmail (schema_of scr) data = Returned tt \/
  exists inner, validate rEmail (schema_of scr) data = Thrown (ValidationError inner).
Proof.
  intros D. destruct scr; cbn [schema_of].
  - unfold validate, report. rewrite resolve_signin. cbn [and_then].
    destruct (flat_map _ _); [left | right; eexists]; reflexivity.
  - unfold validate, report. rewrite resolve_signup. cbn [and_then].
    destruct (flat_map _ _); [left | right; eexists]; reflexivity.
  - destruct (D "password") as [p P]; [cbn; tauto|]. by apply profile_verdict with p.
Qed.

Lemma resolve_fields_names (sh : shape) data fs :
  resolve_fields data sh = Returned fs -> map fst fs = map fst sh.
Proof.
  revert fs. induction sh as [|[k' s'] sh IH]; intros fs R; cbn in R.
  - by injection R as <-.
  - destruct (resolve data s'); [|discriminate]. cbn [and_then] in R.
    destruct (resolve_fields data sh) as [fs'|]; [|discriminate].
    cbn [and_then] in R. injection R as <-. cbn. f_equal. by apply IH.
Qed.

(** The paths of the inner errors are names of fields of the schema. *)
Lemma report_paths (sh : shape) data inner k m :
  report rEmail sh data = Returned inner -> In (k, m) inner -> In k (map fst sh).
Proof.
  unfold report. destruct (resolve_fields data sh) as [fs|e] eqn:R; [|discriminate].
  cbn [and_then]. intros [= <-] H.
  rewrite <- (resolve_fields_names sh data fs R).
  apply in_flat_map in H as ([k' rs] & Hf & Hk).
  unfold field_errors in Hk. cbn [fst snd] in Hk.
  apply in_map_iff in Hk as (m' & [= <- <-] & _).
  apply in_map_iff. by exists (k', rs).
Qed.

(** X20. Every field error a rejected submission leaves on the form is on an
    input the form has, so none is lost from view. *)
Theorem field_errors_land_on_inputs scr data inner path :
  validate rEmail (schema_of scr) data = Thrown (ValidationError inner) ->
  is_Some (form_errors (trace (submit rEmail server true scr data)) !! path) ->
  In path (inputs scr).
Proof.
  intros V [m Hm].
  pose proof (report_of_validation_error rEmail scr data inner V) as R.
  rewrite (submit_rejected rEmail server scr data inner V) in Hm.
  assert (E : forall pre e,
            form_errors (pre ++ [Validate data; SetErrors e]) = e).
  { intros pre e. unfold form_errors. by rewrite fold_left_app. }
  rewrite E, getValidationErrors_lookup in Hm.
  assert (Hin : In (path, m) inner).
  { apply last_Some in Hm as [l Hl].
    assert (In m (map snd (List.filter (fun e => String.eqb (fst e) path) inner)))
      as Hi by (rewrite Hl; apply in_or_app; right; by left).
    apply in_map_iff in Hi as ([k m'] & <- & Hf).
    apply filter_In in Hf as [Hf Hk]. cbn [fst] in Hk.
    apply String.eqb_eq in Hk as ->. exact Hf. }
  pose proof (report_paths _ _ _ _ _ R Hin) as Hp.
  destruct scr; exact Hp.
Qed.

(** X21. For data as the form delivers it, the generic error toast means one
    thing: the data was accepted and the server refused the request. *)
Theorem generic_toast_means_refusal scr data (formRef_current : bool) :
  delivered scr data ->
  (In (generic_toast scr)
      (shown (trace (submit rEmail server formRef_current scr data)))
   <->
   exists r, request_of scr data = Some r /\
             validate rEmail (schema_of scr) data = Returned tt /\
             server r = None).
Proof.
  intros D. rewrite submit_trace. unfold shown.
  destruct (delivered_verdict scr data D) as [V | [inner V]]; rewrite V.
  - destruct scr; cbn [request_of].
    + split; [destruct formRef_current; intros [] | intros (r & ? & _); discriminate].
    + cbn. destruct (server _) eqn:S; cbn.
      * split; [intros [? | []]; discriminate | intros (r & [= <-] & _ & ?); congruence].
      * split; [intros _; eexists; eauto | tauto].
    + cbn. destruct (server _) eqn:S; cbn.
      * split; [intros [? | []]; discriminate | intros (r & [= <-] & _ & ?); congruence].
      * split; [intros _; eexists; eauto | tauto].
  - split; [|intros (r & _ & ? & _); discriminate].
    destruct scr, formRef_current; cbn; intros H; repeat destruct H as [H | H];
      try discriminate; destruct H.
Qed.

End Forms.

Lemma field_errors_land_on_inputs_witness :
  In "name" (inputs SignUpScreen).
Proof.
  apply (field_errors_land_on_inputs sample_rEmail server_up SignUpScreen
           signup_no_name [("name", Msg "Nome Obrigatório")] "name").
  - vm_compute. reflexivity.
  - vm_compute. eexists. reflexivity.
Defined.

Lemma generic_toast_means_refusal_witness :
  In (generic_toast SignUpScreen)
     (shown (trace (submit sample_rEmail server_down true SignUpScreen signup_ok)))
  <->
  exists r, request_of SignUpScreen signup_ok = Some r /\
            validate sample_rEmail (schema_of SignUpScreen) signup_ok = Returned tt /\
            server_down r = None.
Proof.
  apply (generic_toast_means_refusal sample_rEmail server_down SignUpScreen
           signup_ok true).
  intros k [<- | [<- | [<- | []]]]; eexists; vm_compute; reflexivity.
Defined.
